(** * The hand-rolled SSE + JSON-RPC client ([MCPClient])

    A shallow embedding of [src/tests/mcp-funcn-app-test.py] and the
    properties its specification states about it.

    The client owns one long-lived event stream.  A background listener
    dispatches every framed event to [_handle_sse_event], which either
    records the session's write endpoint or resolves a pending call; the
    calling thread issues correlated requests with [_rpc].

    Python objects are modelled as follows.
    - A decoded JSON document is a [json] tree; a [dict] is an association
      list read with first-match lookup.
    - [self._pending] is a [gmap] from correlation id to a reference into
      a store of holder objects: the holder dict is shared between the
      table and the local variable of the call that waits on it.
    - A method is a function from the state to an outcome (a value or a
      raised exception) and the state it leaves behind.
    - Library functions ([json.loads], [uuid.uuid4], [urllib.parse.urljoin],
      [str()] of a container) are an interface of the development;
      executable stand-ins are supplied for running the examples.

    The two threads are modelled by their interleaving.  The listener is
    seen from the events it dispatches, already framed; what it dispatches
    while a caller is busy or blocked is an input of the caller's method
    ([rpc_env], [poll]).  Time is seen from the readings of the clock that
    [connect] makes; the wait of [_rpc] ends when the holder is signalled
    or when the environment has nothing more to dispatch within it. *)

From Stdlib Require Import ZArith Floats Ascii String.
From stdpp Require Import gmap strings list fin_maps pretty.

Set Warnings "-register-all".

Open Scope Z_scope.
Open Scope string_scope.

(** ** Python strings *)

Module PyStr.

(** [s.startswith(p)] *)
Fixpoint startswith (p s : string) : bool :=
  match p, s with
  | EmptyString, _ => true
  | String a p', String b s' => bool_decide (a = b) && startswith p' s'
  | String _ _, EmptyString => false
  end.

(** [needle in s] for two strings *)
Fixpoint contains (needle s : string) : bool :=
  startswith needle s ||
  match s with
  | EmptyString => false
  | String _ s' => contains needle s'
  end.

(** [s.split(sep)[0]] for a non-empty separator: the text before the
    first occurrence of [sep], the whole of [s] when there is none. *)
Fixpoint split_head (sep s : string) : string :=
  if startswith sep s then EmptyString
  else match s with
       | EmptyString => EmptyString
       | String a s' => String a (split_head sep s')
       end.

(** [bool(s)] *)
Definition truthy (s : string) : bool :=
  match s with EmptyString => false | _ => true end.

(** [s.partition(c)] for a one-character separator: [None] when [c]
    does not occur, the text before and after its first occurrence
    otherwise. *)
Fixpoint partition (c : ascii) (s : string) : option (string * string) :=
  match s with
  | EmptyString => None
  | String a s' =>
      if bool_decide (a = c) then Some (EmptyString, s')
      else match partition c s' with
           | Some (l, r) => Some (String a l, r)
           | None => None
           end
  end.

(** [s.split(c)] for a one-character separator *)
Fixpoint split (c : ascii) (s : string) : list string :=
  match s with
  | EmptyString => [EmptyString]
  | String a s' =>
      if bool_decide (a = c) then EmptyString :: split c s'
      else match split c s' with
           | x :: xs => String a x :: xs
           | [] => [String a EmptyString]
           end
  end.

(** [sep.join(parts)] *)
Fixpoint join (sep : string) (parts : list string) : string :=
  match parts with
  | [] => EmptyString
  | [x] => x
  | x :: xs => x +:+ sep +:+ join sep xs
  end.

(** [s[n:]] *)
Fixpoint drop (n : nat) (s : string) : string :=
  match n, s with
  | O, _ => s
  | S n', String _ s' => drop n' s'
  | S _, EmptyString => EmptyString
  end.

(** [s[len(p):]] when [s] starts with [p] *)
Definition strip_prefix (p s : string) : option string :=
  if startswith p s then Some (drop (String.length p) s) else None.

End PyStr.

(** ** Decoded JSON documents *)

Inductive json :=
| JNull
| JBool (b : bool)
| JInt (n : Z)
| JFloat (x : float)
| JStr (s : string)
| JArr (items : list json)
| JObj (fields : list (string * json)).

Module PyVal.

(** [key in d] and [d.get(key)] on the fields of a dict *)
Fixpoint get (key : string) (d : list (string * json)) : option json :=
  match d with
  | [] => None
  | (k, v) :: d' => if bool_decide (k = key) then Some v else get key d'
  end.

Definition has_key (key : string) (d : list (string * json)) : bool :=
  bool_decide (is_Some (get key d)).

(** [bool(v)] *)
Definition truthy (v : json) : bool :=
  match v with
  | JNull => false
  | JBool b => b
  | JInt n => negb (n =? 0)%Z
  | JFloat x => negb (PrimFloat.eqb x 0%float)
  | JStr s => PyStr.truthy s
  | JArr l => match l with [] => false | _ => true end
  | JObj d => match d with [] => false | _ => true end
  end.

End PyVal.

(** ** Exceptions *)

Inductive exn :=
| MCPClientError (arg : json)       (* the one class the client defines *)
| TimeoutError (msg : string)       (* built-in, raised by [connect] *)
| TypeError
| ValueError
| JSONDecodeError                   (* [json.JSONDecodeError], a [ValueError] *)
| RecursionError
| AttributeError
| KeyError
| RequestException (info : string). (* raised by the HTTP session *)

(** ** Library functions the client calls

    None of these is code of the repository; the model takes them as an
    interface.  [json_loads] is [json.loads] with what it raises: a
    [JSONDecodeError] on a text that is not JSON, and at times another
    exception, a plain [ValueError] on an integer literal longer than
    the interpreter converts or a [RecursionError] on deep nesting, which
    can come before the text is found not to be JSON.
    [uuid4 n] is [str(uuid.uuid4())] as
    returned by the [n]-th call.  [urljoin] is [urllib.parse.urljoin] on
    two strings.  [py_str] is [str()] of a list or dict, as an f-string
    formats it. *)

Class PyLib := {
  json_loads : string → exn + json;
  uuid4 : nat → string;
  urljoin : string → string → exn + string;
  py_str : json → string;
}.

(** ** State *)

(** The holder dict [{"event": evt, "response": obj}] of one call: the flag
    of its [threading.Event] and the response, absent until delivered. *)
Record holder := Holder {
  event_set : bool;
  response : option json;
}.

(** The fields of [self] that the methods read or write. *)
Record MCPClient := Client {
  base_sse_url : string;
  function_key : option string;
  timeout : Z;
  write_url : option string;
  _pending : gmap string nat;
}.

(** The client together with what its methods act on: the holder objects
    (a reference is an index), the POST requests sent so far, and the
    number of ids drawn from [uuid4]. *)
Record world := World {
  self : MCPClient;
  heap : list holder;
  posted : list (string * json);
  drawn : nat;
}.

Definition MCPClient_init (base_sse_url : string) (function_key : option string)
    (timeout : Z) : world :=
  World (Client base_sse_url function_key timeout None ∅) [] [] 0.

Definition set_write_url (u : string) (w : world) : world :=
  let c := self w in
  World (Client (base_sse_url c) (function_key c) (timeout c) (Some u) (_pending c))
        (heap w) (posted w) (drawn w).

Definition set_pending (f : gmap string nat → gmap string nat) (w : world) : world :=
  let c := self w in
  World (Client (base_sse_url c) (function_key c) (timeout c) (write_url c)
                (f (_pending c)))
        (heap w) (posted w) (drawn w).

Definition set_heap (f : list holder → list holder) (w : world) : world :=
  World (self w) (f (heap w)) (posted w) (drawn w).

(** ** Methods as state transformers that may raise *)

Definition M (A : Type) : Type := world → (exn + A) * world.

Definition ret {A} (a : A) : M A := λ w, (inr a, w).
Definition raise {A} (e : exn) : M A := λ w, (inl e, w).
Definition bind {A B} (m : M A) (k : A → M B) : M B := λ w,
  match m w with
  | (inr a, w') => k a w'
  | (inl e, w') => (inl e, w')
  end.
Definition lift {A} (r : exn + A) : M A := λ w, (r, w).
Definition get_self : M MCPClient := λ w, (inr (self w), w).
Definition modify (f : world → world) : M unit := λ w, (inr tt, f w).

Notation "'do' x <- m ; k" := (bind m (λ x, k))
  (at level 10, x name, m at level 100, k at level 200).
Notation "'exec' m ; k" := (bind m (λ _, k))
  (at level 10, m at level 100, k at level 200).

(** ** Endpoint qualification *)

(** [needle in v] for a string [needle]: substring test on a str,
    element test on a list, key test on a dict, [TypeError] otherwise. *)
Definition py_in (needle : string) (v : json) : exn + bool :=
  match v with
  | JStr s => inr (PyStr.contains needle s)
  | JArr l =>
      inr (existsb (λ x, match x with
                         | JStr s => bool_decide (s = needle)
                         | _ => false
                         end) l)
  | JObj d => inr (PyVal.has_key needle d)
  | _ => inl TypeError
  end.

Section Qualify.
Context {L : PyLib}.

(** [f"{v}"] *)
Definition py_format (v : json) : string :=
  match v with
  | JStr s => s
  | _ => py_str v
  end.

(** [urljoin(base, url)] for a non-empty str [base]: a second argument
    that is not a str comes back as [base] when falsy and is refused
    with [TypeError] otherwise. *)
Definition py_urljoin (base : string) (url : json) : exn + string :=
  match url with
  | JStr u => urljoin base u
  | _ => if PyVal.truthy url then inl TypeError else inr base
  end.

Definition _qualify_endpoint (c : MCPClient) (endpoint : json) : exn + string :=
  let base := PyStr.split_head "/sse" (base_sse_url c) in
  let has_key :=
    match function_key c with
    | Some key => PyStr.truthy key
    | None => false
    end in
  if has_key then
    match py_in "code=" endpoint with
    | inl e => inl e
    | inr true => py_urljoin (base +:+ "/") endpoint
    | inr false =>
        match py_in "?" endpoint with
        | inl e => inl e
        | inr q =>
            let sep := if q then "&" else "?" in
            py_urljoin (base +:+ "/")
              (JStr (py_format endpoint +:+ sep +:+ "code=" +:+
                     default EmptyString (function_key c)))
        end
    end
  else py_urljoin (base +:+ "/") endpoint.

End Qualify.

(** ** The event dispatcher and the listener *)

(** One framed event: the last [event:] field, if any, and the joined
    [data:] lines. *)
Record sse_event := Sse {
  name : option string;
  data : string;
}.

(** [self._pending.pop(key, None)] under the lock.  Every key of the table
    is a str, so a hashable key of another type finds nothing.  A list or
    a dict is unhashable and the lookup raises, unless the table is
    empty: [dict.pop] answers the default for an empty dict before it
    hashes the key. *)
Definition pending_pop (key : json) : M (option nat) := λ w,
  match key with
  | JStr rid =>
      match _pending (self w) !! rid with
      | Some ref => (inr (Some ref), set_pending (delete rid) w)
      | None => (inr None, w)
      end
  | JArr _ | JObj _ =>
      if bool_decide (_pending (self w) = ∅) then (inr None, w)
      else (inl TypeError, w)
  | _ => (inr None, w)
  end.

(** [waiter["response"] = obj; waiter["event"].set()] *)
Definition deliver (ref : nat) (obj : json) : M unit :=
  modify (set_heap (λ h, <[ref := Holder true (Some obj)]> h)).

Section Client.
Context {L : PyLib}.

Definition _handle_sse_event (event : option string) (data : string) : M unit :=
  do c <- get_self;
  if bool_decide (event = Some "endpoint") && PyStr.truthy data
     && bool_decide (write_url c = None)
  then
    do u <- lift (_qualify_endpoint c (JStr data));
    modify (set_write_url u)
  else
    match json_loads data with
    | inl JSONDecodeError => ret tt
    | inl x => raise x
    | inr obj =>
        match obj with
        | JObj d =>
            match write_url c, PyVal.get "endpoint" d with
            | None, Some endpoint =>
                do u <- lift (_qualify_endpoint c endpoint);
                modify (set_write_url u)
            | _, _ =>
                match PyVal.get "id" d with
                | Some key =>
                    do waiter <- pending_pop key;
                    match waiter with
                    | Some ref => deliver ref obj
                    | None => ret tt
                    end
                | None => ret tt
                end
            end
        | _ => ret tt
        end
    end.

(** The background thread, seen from the events it dispatches in one
    stretch of time: an exception that escapes the handler ends the
    thread, and the events after it are never dispatched.  A dead thread
    dispatches nothing later on either; a later stretch that is not empty
    then describes no execution, and what is proved for every stretch
    holds for the empty one. *)
Fixpoint listen (evs : list sse_event) (w : world) : world :=
  match evs with
  | [] => w
  | e :: evs' =>
      match _handle_sse_event (name e) (data e) w with
      | (inr _, w') => listen evs' w'
      | (inl _, w') => w'
      end
  end.

Definition background (evs : list sse_event) : M unit := modify (listen evs).

(** *** [connect] *)

(** One evaluation of the loop condition: what the listener dispatched
    since the previous one, and the reading of [time.time()]. *)
Record poll := Poll {
  arrived : list sse_event;
  now : Z;
}.

(** The polling loop.  [None]: the given polls end while the loop is
    still running. *)
Fixpoint connect_wait (start handshake_timeout : Z) (polls : list poll)
    (w : world) : option world :=
  match polls with
  | [] => None
  | p :: polls' =>
      let w' := listen (arrived p) w in
      if bool_decide (write_url (self w') = None)
         && (now p - start <? handshake_timeout)%Z
      then connect_wait start handshake_timeout polls' w'
      else Some w'
  end.

(** [connect]: [start] is the first clock reading, [polls] the
    evaluations of the loop condition, [late] what the listener
    dispatches between the end of the loop and the last test. *)
Definition connect (handshake_timeout start : Z) (polls : list poll)
    (late : list sse_event) (w : world) : option ((exn + unit) * world) :=
  match connect_wait start handshake_timeout polls w with
  | None => None
  | Some w' =>
      let w'' := listen late w' in
      Some (match write_url (self w'') with
            | None =>
                (inl (TimeoutError
                   "Did not receive session write endpoint via SSE handshake"),
                 w'')
            | Some _ => (inr tt, w'')
            end)
  end.

(** *** [_rpc] *)

(** What [self._session.post] comes back with. *)
Inductive post_result :=
| Reply (status_code : Z) (text : string)
| PostRaises (e : exn).

(** What happens around one call: the events the listener dispatches
    while the POST is in flight, the outcome of the POST, the events
    dispatched while the caller blocks in [evt.wait] up to its return,
    and those dispatched between a wait that returned [False] and the
    locked [pop]. *)
Record rpc_env := RpcEnv {
  in_flight : list sse_event;
  reply : post_result;
  in_wait : list sse_event;
  in_race : list sse_event;
}.

(** [str(uuid.uuid4())] *)
Definition new_rid : M string := λ w,
  (inr (uuid4 (drawn w)), World (self w) (heap w) (posted w) (S (drawn w))).

(** [holder = {"event": threading.Event()}] *)
Definition new_holder : M nat := λ w,
  (inr (length (heap w)), set_heap (λ h, (h ++ [Holder false None])%list) w).

(** [with self._lock: self._pending[rid] = holder] *)
Definition register (rid : string) (ref : nat) : M unit :=
  modify (set_pending (λ m, <[rid := ref]> m)).

(** [self._session.post(self.write_url, json=payload, ...)] *)
Definition session_post (payload : json) (env : rpc_env) : M (Z * string) := λ w,
  let w1 := World (self w) (heap w)
              (posted w ++ [(default EmptyString (write_url (self w)), payload)])%list
              (drawn w) in
  let w2 := listen (in_flight env) w1 in
  match reply env with
  | Reply status_code text => (inr (status_code, text), w2)
  | PostRaises e => (inl e, w2)
  end.

Definition read_holder (ref : nat) : M holder := λ w,
  (inr (default (Holder false None) (heap w !! ref)), w).

(** [params or {}] *)
Definition params_or_empty (params : option (list (string * json))) : json :=
  JObj (default [] params).

(** The request envelope. *)
Definition rpc_payload (rid method : string)
    (params : option (list (string * json))) : json :=
  JObj [("jsonrpc", JStr "2.0"); ("id", JStr rid); ("method", JStr method);
        ("params", params_or_empty params)].

(** [if "error" in result: raise MCPClientError(result["error"])].  The
    listener stores dicts only; on a value of another type [in] and the
    subscript behave as Python has them. *)
Definition check_error (result : json) : exn + json :=
  match result with
  | JObj d =>
      match PyVal.get "error" d with
      | Some err => inl (MCPClientError err)
      | None => inr result
      end
  | _ =>
      match py_in "error" result with
      | inl x => inl x
      | inr true => inl TypeError
      | inr false => inr result
      end
  end.

(** Lines 86 to 90 on their own: the id is drawn and its holder
    registered. *)
Definition rpc_issue : M (string * nat) :=
  do rid <- new_rid;
  do ref <- new_holder;
  exec register rid ref;
  ret (rid, ref).

Definition _rpc (method : string) (params : option (list (string * json)))
    (env : rpc_env) : M json :=
  do c <- get_self;
  match write_url c with
  | None =>
      raise (MCPClientError (JStr "Not connected or write endpoint not discovered"))
  | Some _ =>
      do rid <- new_rid;
      do ref <- new_holder;
      exec register rid ref;
      let payload := rpc_payload rid method params in
      do resp <- session_post payload env;
      if (400 <=? resp.1)%Z then
        raise (MCPClientError (JStr ("HTTP " +:+ pretty resp.1 +:+ ": " +:+ resp.2)))
      else
        exec background (in_wait env);
        do h <- read_holder ref;
        if event_set h then
          match response h with
          | Some result => lift (check_error result)
          | None => raise KeyError
          end
        else
          exec background (in_race env);
          exec pending_pop (JStr rid);
          raise (MCPClientError (JStr ("Timeout waiting for response to " +:+ method)))
  end.

(** *** Convenience wrappers *)

(** [v.get(key, dflt)] *)
Definition py_get (key : string) (dflt : json) (v : json) : exn + json :=
  match v with
  | JObj d => inr (default dflt (PyVal.get key d))
  | _ => inl AttributeError
  end.

Definition initialize (protocol_version client_name client_version : string)
    (env : rpc_env) : M json :=
  _rpc "initialize"
    (Some [("protocolVersion", JStr protocol_version);
           ("capabilities", JObj []);
           ("client", JObj [("name", JStr client_name);
                            ("version", JStr client_version)])])
    env.

Definition list_tools (env : rpc_env) : M json :=
  do resp <- _rpc "tools/list" (Some []) env;
  do result <- lift (py_get "result" (JObj []) resp);
  lift (py_get "tools" (JArr []) result).

Definition call_tool (name : string) (arguments : json) (env : rpc_env) : M json :=
  do resp <- _rpc "tools/call" (Some [("name", JStr name); ("arguments", arguments)]) env;
  do result <- lift (py_get "result" (JObj []) resp);
  lift (py_get "content" (JArr []) result).

(** The loop over the content blocks: the [data] of the first block
    whose [type] is ["json"], the content itself when there is none. *)
Fixpoint first_json_block (blocks : list json) (content : json) : exn + json :=
  match blocks with
  | [] => inr content
  | JObj d :: rest =>
      match PyVal.get "type" d with
      | Some (JStr t) =>
          if bool_decide (t = "json") then inr (default JNull (PyVal.get "data" d))
          else first_json_block rest content
      | _ => first_json_block rest content
      end
  | _ :: _ => inl AttributeError
  end.

(** [for block in content: ...]: a list yields its items, a dict its
    keys and a str its characters, none of which has a [get]; anything
    else is not iterable. *)
Definition scan_content (content : json) : exn + json :=
  match content with
  | JArr blocks => first_json_block blocks content
  | JObj [] | JStr EmptyString => inr content
  | JObj _ | JStr _ => inl AttributeError
  | _ => inl TypeError
  end.

Definition search (query : string) (env : rpc_env) : M json :=
  do content <- call_tool "search" (JObj [("query", JStr query)]) env;
  lift (scan_content content).

Definition search_by_doc_id (doc_id : string) (env : rpc_env) : M json :=
  do content <- call_tool "search_by_doc_id" (JObj [("doc_id", JStr doc_id)]) env;
  lift (scan_content content).

(** *** Interleavings

    The steps that touch the pending table, one at a time, in the order
    the lock serialises them: the listener handles one event, a caller
    registers a new call, a caller whose wait timed out removes its
    entry. *)
Inductive action :=
| Dispatch (e : sse_event)
| Issue
| Expire (rid : string).

Definition act (a : action) (w : world) : world :=
  match a with
  | Dispatch e => (_handle_sse_event (name e) (data e) w).2
  | Issue =>
      match write_url (self w) with
      | None => w
      | Some _ => (rpc_issue w).2
      end
  | Expire rid => (pending_pop (JStr rid) w).2
  end.

Definition run (tr : list action) (w : world) : world :=
  foldl (λ w a, act a w) w tr.

(** A JSON-RPC response carrying the id [rid]. *)
Definition correlates (rid : string) (e : sse_event) : bool :=
  match json_loads (data e) with
  | inr (JObj d) =>
      match PyVal.get "id" d with
      | Some (JStr s) => bool_decide (s = rid)
      | _ => false
      end
  | _ => false
  end.

(** The state in which the POST of a call issued in [w] returns: the id
    is drawn, the holder registered, the request sent, and the listener
    has dispatched what arrived meanwhile. *)
Definition at_post (method : string) (params : option (list (string * json)))
    (env : rpc_env) (w : world) : world :=
  (session_post (rpc_payload (uuid4 (drawn w)) method params) env (rpc_issue w).2).2.

(** A payload whose [id] is a list or a dict: looking it up in a table
    that is not empty raises [TypeError]. *)
Definition unhashable_id (e : sse_event) : bool :=
  match json_loads (data e) with
  | inr (JObj d) =>
      match PyVal.get "id" d with
      | Some (JArr _ | JObj _) => true
      | _ => false
      end
  | _ => false
  end.

(** A payload on which [json.loads] raises something the handler does
    not catch. *)
Definition loads_escapes (e : sse_event) : bool :=
  match json_loads (data e) with
  | inl JSONDecodeError => false
  | inl _ => true
  | inr _ => false
  end.

(** An event that discovery can take for the announcement of an
    endpoint: a non-empty [endpoint] event, or a JSON object with an
    [endpoint] key. *)
Definition announces (e : sse_event) : bool :=
  (bool_decide (name e = Some "endpoint") && PyStr.truthy (data e))
  || match json_loads (data e) with
     | inr (JObj d) => PyVal.has_key "endpoint" d
     | _ => false
     end.

(** The event [e] announces an endpoint that qualifies to [u] for the
    client [c]: as a non-empty [endpoint] event, or else as a JSON object
    with an [endpoint] key. *)
Definition discovers (c : MCPClient) (e : sse_event) (u : string) : Prop :=
  (name e = Some "endpoint" ∧ data e ≠ EmptyString
   ∧ _qualify_endpoint c (JStr (data e)) = inr u)
  ∨ (¬ (name e = Some "endpoint" ∧ data e ≠ EmptyString)
     ∧ ∃ d v, json_loads (data e) = inr (JObj d)
              ∧ PyVal.get "endpoint" d = Some v
              ∧ _qualify_endpoint c v = inr u).

(** A step that removes the entry of [rid], if there is one: a response
    that carries the id, or the timeout of the call. *)
Definition resolves (rid : string) (a : action) : bool :=
  match a with
  | Dispatch e => correlates rid e
  | Issue => false
  | Expire r => bool_decide (r = rid)
  end.

(** [e] is dispatched in the course of [evs]: it occurs there, after
    events that neither carry the id [rid] nor kill the listener. *)
Definition arrives (rid : string) (e : sse_event) (evs : list sse_event) : Prop :=
  ∃ pre post,
    evs = (pre ++ e :: post)%list
    ∧ Forall (λ x, correlates rid x = false ∧ unhashable_id x = false
                   ∧ loads_escapes x = false) pre.

(** The correlated response reaches a call with the environment [env]:
    while the POST is in flight, or while the caller waits. *)
Definition answered (rid : string) (e : sse_event) (env : rpc_env) : Prop :=
  arrives rid e (in_flight env)
  ∨ (Forall (λ x, correlates rid x = false) (in_flight env)
     ∧ arrives rid e (in_wait env)).

End Client.

(** Every reference held by the table is a holder that exists. *)
Definition wf (w : world) : Prop :=
  map_Forall (λ _ ref, ref < length (heap w))%nat (_pending (self w)).

(** The call with id [rid] and holder [ref] is pending: an endpoint is
    known, the entry is in the table, no other id shares the holder, and
    the holder is not resolved. *)
Definition pend (rid : string) (ref : nat) (w : world) : Prop :=
  write_url (self w) ≠ None
  ∧ _pending (self w) !! rid = Some ref
  ∧ (∀ k, _pending (self w) !! k = Some ref → k = rid)
  ∧ heap w !! ref = Some (Holder false None).

(** The call with id [rid] and holder [ref] is resolved with [d]: the id
    is gone from the table, nothing there leads to the holder any more,
    and the holder has the response. *)
Definition res (rid : string) (ref : nat) (d : list (string * json))
    (w : world) : Prop :=
  _pending (self w) !! rid = None
  ∧ (∀ k, _pending (self w) !! k ≠ Some ref)
  ∧ heap w !! ref = Some (Holder true (Some (JObj d))).

(** ** Executable stand-ins for the library functions

    These let the model run on concrete inputs.  They are not code of the
    repository, and the general theorems below do not depend on them. *)

(** [urllib.parse.urljoin] after CPython's implementation.  The
    validation of a bracketed host beyond the matching of its brackets,
    and the check of the host against characters that normalise to a
    delimiter, are left out. *)
Module UrlLib.

Definition uses_relative : list string :=
  [""; "ftp"; "http"; "gopher"; "nntp"; "imap"; "wais"; "file"; "https";
   "shttp"; "mms"; "prospero"; "rtsp"; "rtsps"; "rtspu"; "sftp"; "svn";
   "svn+ssh"; "ws"; "wss"].

Definition uses_netloc : list string :=
  [""; "ftp"; "http"; "gopher"; "nntp"; "telnet"; "imap"; "wais"; "file";
   "mms"; "https"; "shttp"; "snews"; "prospero"; "rtsp"; "rtsps"; "rtspu";
   "rsync"; "svn"; "svn+ssh"; "sftp"; "nfs"; "git"; "git+ssh"; "ws"; "wss";
   "itms-services"].

Definition uses_params : list string :=
  [""; "ftp"; "hdl"; "prospero"; "http"; "imap"; "https"; "shttp"; "rtsp";
   "rtsps"; "rtspu"; "sip"; "sips"; "mms"; "sftp"; "tel"].

Definition mem (x : string) (l : list string) : bool :=
  existsb (λ y, bool_decide (x = y)) l.

Definition in_range (lo hi : nat) (a : ascii) : bool :=
  let n := nat_of_ascii a in (lo <=? n)%nat && (n <=? hi)%nat.

Definition is_upper := in_range 65 90.
Definition is_alpha (a : ascii) : bool := is_upper a || in_range 97 122 a.
Definition is_scheme_char (a : ascii) : bool :=
  is_alpha a || in_range 48 57 a
  || bool_decide (a = "+"%char) || bool_decide (a = "-"%char)
  || bool_decide (a = "."%char).

Fixpoint all_chars (f : ascii → bool) (s : string) : bool :=
  match s with
  | EmptyString => true
  | String a s' => f a && all_chars f s'
  end.

Fixpoint lower (s : string) : string :=
  match s with
  | EmptyString => EmptyString
  | String a s' =>
      String (if is_upper a then ascii_of_nat (nat_of_ascii a + 32) else a)
             (lower s')
  end.

(** The text before the first character satisfying [stop], and the rest
    from that character on. *)
Fixpoint break_at (stop : ascii → bool) (s : string) : string * string :=
  match s with
  | EmptyString => (EmptyString, EmptyString)
  | String a s' =>
      if stop a then (EmptyString, s)
      else let '(l, r) := break_at stop s' in (String a l, r)
  end.

Record parts := Parts {
  scheme : string;
  netloc : string;
  path : string;
  params : string;
  query : string;
  fragment : string;
}.

Definition has_char (c : ascii) (s : string) : bool :=
  bool_decide (is_Some (PyStr.partition c s)).

(** The characters from U+0000 to the space, which [urlsplit] strips
    from the front of the URL and from both ends of the default scheme,
    and the tab, carriage return and line feed, which it removes
    wherever they are. *)
Definition is_c0_or_space (a : ascii) : bool := (nat_of_ascii a <=? 32)%nat.

Definition is_unsafe (a : ascii) : bool :=
  let n := nat_of_ascii a in (n =? 9)%nat || (n =? 13)%nat || (n =? 10)%nat.

Fixpoint lstrip_c0 (s : string) : string :=
  match s with
  | String a s' => if is_c0_or_space a then lstrip_c0 s' else s
  | EmptyString => s
  end.

Fixpoint rstrip_c0 (s : string) : string :=
  match s with
  | EmptyString => EmptyString
  | String a s' =>
      let r := rstrip_c0 s' in
      if is_c0_or_space a && negb (PyStr.truthy r) then EmptyString else String a r
  end.

Fixpoint remove_unsafe (s : string) : string :=
  match s with
  | EmptyString => EmptyString
  | String a s' => if is_unsafe a then remove_unsafe s' else String a (remove_unsafe s')
  end.

(** [urlsplit(url, scheme)] followed by the split of the parameters
    that [urlparse] adds. *)
Definition urlparse (url dflt : string) : exn + parts :=
  let url := remove_unsafe (lstrip_c0 url) in
  let dflt := remove_unsafe (lstrip_c0 (rstrip_c0 dflt)) in
  let '(sch, url1) :=
    match PyStr.partition ":" url with
    | Some (String a _ as pre, post) =>
        if is_alpha a && all_chars is_scheme_char pre then (lower pre, post)
        else (dflt, url)
    | _ => (dflt, url)
    end in
  let '(loc, url2) :=
    match PyStr.strip_prefix "//" url1 with
    | Some rest =>
        break_at (λ a, bool_decide (a = "/"%char) || bool_decide (a = "?"%char)
                       || bool_decide (a = "#"%char)) rest
    | None => (EmptyString, url1)
    end in
  if xorb (has_char "[" loc) (has_char "]" loc) then inl ValueError
  else
    let '(url3, frag) :=
      match PyStr.partition "#" url2 with
      | Some (l, r) => (l, r)
      | None => (url2, EmptyString)
      end in
    let '(url4, qry) :=
      match PyStr.partition "?" url3 with
      | Some (l, r) => (l, r)
      | None => (url3, EmptyString)
      end in
    let '(pth, prm) :=
      if mem sch uses_params then
        let segs := PyStr.split "/" url4 in
        match PyStr.partition ";" (List.last segs EmptyString) with
        | Some (l, r) => (PyStr.join "/" (removelast segs ++ [l])%list, r)
        | None => (url4, EmptyString)
        end
      else (url4, EmptyString) in
    inr (Parts sch loc pth prm qry frag).

Definition urlunparse (p : parts) : string :=
  let url := if PyStr.truthy (params p) then path p +:+ ";" +:+ params p else path p in
  let url :=
    if PyStr.truthy (netloc p)
       || (PyStr.truthy (scheme p) && mem (scheme p) uses_netloc
           && negb (PyStr.startswith "//" url))
    then "//" +:+ netloc p +:+
         (if PyStr.truthy url && negb (PyStr.startswith "/" url) then "/" +:+ url
          else url)
    else url in
  let url := if PyStr.truthy (scheme p) then scheme p +:+ ":" +:+ url else url in
  let url := if PyStr.truthy (query p) then url +:+ "?" +:+ query p else url in
  if PyStr.truthy (fragment p) then url +:+ "#" +:+ fragment p else url.

(** The loop over the segments: [".."] drops the last segment kept so
    far, ["."] is skipped.  [acc] is the resolved path, reversed. *)
Fixpoint resolve (segments acc : list string) : list string :=
  match segments with
  | [] => rev acc
  | seg :: rest =>
      if bool_decide (seg = "..") then resolve rest (tail acc)
      else if bool_decide (seg = ".") then resolve rest acc
      else resolve rest (seg :: acc)
  end.

(** [segments[1:-1] = filter(None, segments[1:-1])] *)
Definition squeeze (segments : list string) : list string :=
  match segments with
  | first :: (_ :: _) as rest =>
      (first :: List.filter PyStr.truthy (removelast rest)
         ++ [List.last rest EmptyString])%list
  | _ => segments
  end.

Definition urljoin (base url : string) : exn + string :=
  if negb (PyStr.truthy base) then inr url
  else if negb (PyStr.truthy url) then inr base
  else
    match urlparse base EmptyString with
    | inl e => inl e
    | inr b =>
        match urlparse url (scheme b) with
        | inl e => inl e
        | inr u =>
            if negb (bool_decide (scheme u = scheme b))
               || negb (mem (scheme u) uses_relative)
            then inr url
            else if mem (scheme u) uses_netloc && PyStr.truthy (netloc u)
            then inr (urlunparse u)
            else
              let loc := if mem (scheme u) uses_netloc then netloc b else netloc u in
              if negb (PyStr.truthy (path u)) && negb (PyStr.truthy (params u))
              then
                inr (urlunparse
                       (Parts (scheme u) loc (path b) (params b)
                              (if PyStr.truthy (query u) then query u else query b)
                              (fragment u)))
              else
                let base_parts :=
                  let bp := PyStr.split "/" (path b) in
                  if PyStr.truthy (List.last bp EmptyString) then removelast bp else bp in
                let segments :=
                  if PyStr.startswith "/" (path u) then PyStr.split "/" (path u)
                  else squeeze (base_parts ++ PyStr.split "/" (path u))%list in
                let resolved := resolve segments [] in
                let resolved :=
                  let l := List.last segments EmptyString in
                  if bool_decide (l = ".") || bool_decide (l = "..")
                  then (resolved ++ [EmptyString])%list else resolved in
                let joined := PyStr.join "/" resolved in
                inr (urlunparse
                       (Parts (scheme u) loc
                              (if PyStr.truthy joined then joined else "/")
                              (params u) (query u) (fragment u)))
        end
    end.

End UrlLib.

(** [json.loads] on the JSON texts that have no fraction, exponent,
    non-finite number or [\u] escape; a text that has one is refused here
    with [JSONDecodeError] although Python decodes it.  A repeated key
    keeps its first position and its last value, as in a Python dict.  An
    integer literal of more than 4300 digits raises the [ValueError] of
    [int]; the [RecursionError] of deep nesting is left out. *)
Module JsonLite.

Definition dquote : ascii := ascii_of_nat 34.
Definition backslash : ascii := ascii_of_nat 92.

Definition is_ws (a : ascii) : bool :=
  let n := nat_of_ascii a in
  (n =? 32)%nat || (n =? 9)%nat || (n =? 10)%nat || (n =? 13)%nat.

Fixpoint skip_ws (s : string) : string :=
  match s with
  | String a s' => if is_ws a then skip_ws s' else s
  | EmptyString => s
  end.

Definition unescape (a : ascii) : option ascii :=
  let n := nat_of_ascii a in
  if (n =? 34)%nat || (n =? 92)%nat || (n =? 47)%nat then Some a
  else if (n =? 98)%nat then Some (ascii_of_nat 8)
  else if (n =? 102)%nat then Some (ascii_of_nat 12)
  else if (n =? 110)%nat then Some (ascii_of_nat 10)
  else if (n =? 114)%nat then Some (ascii_of_nat 13)
  else if (n =? 116)%nat then Some (ascii_of_nat 9)
  else None.

(** The body of a string, after its opening quote. *)
Fixpoint parse_string (s : string) : option (string * string) :=
  match s with
  | EmptyString => None
  | String a s' =>
      if bool_decide (a = dquote) then Some (EmptyString, s')
      else if bool_decide (a = backslash) then
        match s' with
        | String e s'' =>
            match unescape e, parse_string s'' with
            | Some c, Some (t, r) => Some (String c t, r)
            | _, _ => None
            end
        | EmptyString => None
        end
      else if (nat_of_ascii a <? 32)%nat then None
      else match parse_string s' with
           | Some (t, r) => Some (String a t, r)
           | None => None
           end
  end.

Definition is_digit (a : ascii) : bool := UrlLib.in_range 48 57 a.

Fixpoint digits_value (acc : Z) (ds : string) : Z :=
  match ds with
  | EmptyString => acc
  | String d ds' => digits_value (10 * acc + Z.of_nat (nat_of_ascii d - 48)) ds'
  end.

(** [sys.get_int_max_str_digits()], as the interpreter starts: [int]
    refuses a literal with more digits with a plain [ValueError]. *)
Definition max_str_digits : nat := 4300.

(** Whether the scanner takes what follows the integer part for a
    fraction or an exponent. *)
Definition float_follows (rest : string) : bool :=
  match rest with
  | String c (String d r) =>
      (bool_decide (c = "."%char) && is_digit d)
      || ((bool_decide (c = "e"%char) || bool_decide (c = "E"%char))
          && (is_digit d
              || ((bool_decide (d = "+"%char) || bool_decide (d = "-"%char))
                  && match r with String x _ => is_digit x | EmptyString => false end)))
  | _ => false
  end.

Definition parse_number (s : string) : exn + (json * string) :=
  let '(neg, s1) :=
    match s with
    | String a s' => if bool_decide (a = "-"%char) then (true, s') else (false, s)
    | EmptyString => (false, s)
    end in
  let '(ds, rest) := UrlLib.break_at (λ a, negb (is_digit a)) s1 in
  match ds with
  | EmptyString => inl JSONDecodeError
  | String d ds' =>
      if bool_decide (d = "0"%char) && PyStr.truthy ds' then inl JSONDecodeError
      else if float_follows rest then inl JSONDecodeError
      else if (max_str_digits <? String.length ds)%nat then inl ValueError
      else inr (JInt (if neg then - digits_value 0 ds else digits_value 0 ds), rest)
  end.

(** [d[k] = v] *)
Fixpoint dict_set (k : string) (v : json) (d : list (string * json))
    : list (string * json) :=
  match d with
  | [] => [(k, v)]
  | (k', v') :: d' =>
      if bool_decide (k' = k) then (k, v) :: d' else (k', v') :: dict_set k v d'
  end.

Fixpoint parse_value (fuel : nat) (s : string) : exn + (json * string) :=
  match fuel with
  | O => inl JSONDecodeError
  | S fuel' =>
      match skip_ws s with
      | EmptyString => inl JSONDecodeError
      | String a s' as s0 =>
          if bool_decide (a = "{"%char) then
            match skip_ws s' with
            | String b r =>
                if bool_decide (b = "}"%char) then inr (JObj [], r)
                else parse_members fuel' s' []
            | EmptyString => inl JSONDecodeError
            end
          else if bool_decide (a = "["%char) then
            match skip_ws s' with
            | String b r =>
                if bool_decide (b = "]"%char) then inr (JArr [], r)
                else parse_items fuel' s' []
            | EmptyString => inl JSONDecodeError
            end
          else if bool_decide (a = dquote) then
            match parse_string s' with
            | Some (t, r) => inr (JStr t, r)
            | None => inl JSONDecodeError
            end
          else
            match PyStr.strip_prefix "null" s0, PyStr.strip_prefix "true" s0,
                  PyStr.strip_prefix "false" s0 with
            | Some r, _, _ => inr (JNull, r)
            | _, Some r, _ => inr (JBool true, r)
            | _, _, Some r => inr (JBool false, r)
            | None, None, None => parse_number s0
            end
      end
  end
with parse_items (fuel : nat) (s : string) (acc : list json) : exn + (json * string) :=
  match fuel with
  | O => inl JSONDecodeError
  | S fuel' =>
      match parse_value fuel' s with
      | inr (v, r) =>
          match skip_ws r with
          | String c r' =>
              if bool_decide (c = ","%char) then parse_items fuel' r' (v :: acc)
              else if bool_decide (c = "]"%char) then inr (JArr (rev (v :: acc)), r')
              else inl JSONDecodeError
          | EmptyString => inl JSONDecodeError
          end
      | inl x => inl x
      end
  end
with parse_members (fuel : nat) (s : string) (acc : list (string * json))
    : exn + (json * string) :=
  match fuel with
  | O => inl JSONDecodeError
  | S fuel' =>
      match skip_ws s with
      | String q r =>
          if bool_decide (q = dquote) then
            match parse_string r with
            | Some (k, r1) =>
                match skip_ws r1 with
                | String c r2 =>
                    if bool_decide (c = ":"%char) then
                      match parse_value fuel' r2 with
                      | inr (v, r3) =>
                          match skip_ws r3 with
                          | String c' r4 =>
                              if bool_decide (c' = ","%char)
                              then parse_members fuel' r4 (dict_set k v acc)
                              else if bool_decide (c' = "}"%char)
                              then inr (JObj (dict_set k v acc), r4)
                              else inl JSONDecodeError
                          | EmptyString => inl JSONDecodeError
                          end
                      | inl x => inl x
                      end
                    else inl JSONDecodeError
                | EmptyString => inl JSONDecodeError
                end
            | None => inl JSONDecodeError
            end
          else inl JSONDecodeError
      | EmptyString => inl JSONDecodeError
      end
  end.

Definition loads (s : string) : exn + json :=
  match parse_value (2 * String.length s + 2) s with
  | inr (v, r) =>
      match skip_ws r with
      | EmptyString => inr v
      | String _ _ => inl JSONDecodeError
      end
  | inl x => inl x
  end.

(** A JSON text written with apostrophes where it has double quotes. *)
Fixpoint text (s : string) : string :=
  match s with
  | EmptyString => EmptyString
  | String a s' => String (if bool_decide (a = "'"%char) then dquote else a) (text s')
  end.

End JsonLite.

(** [str()] of a decoded document; a float is not rendered. *)
Fixpoint py_repr (v : json) : string :=
  match v with
  | JNull => "None"
  | JBool true => "True"
  | JBool false => "False"
  | JInt n => pretty n
  | JFloat _ => "<float>"
  | JStr s => "'" +:+ s +:+ "'"
  | JArr l =>
      "[" +:+ PyStr.join ", " (map py_repr l) +:+ "]"
  | JObj d =>
      "{" +:+ PyStr.join ", "
                (map (λ kv, "'" +:+ kv.1 +:+ "': " +:+ py_repr kv.2) d) +:+ "}"
  end.

(** The stand-ins together; the [n]-th id is ["rid-n"]. *)
Definition lite : PyLib := {|
  json_loads := JsonLite.loads;
  uuid4 := λ n, "rid-" +:+ pretty n;
  urljoin := UrlLib.urljoin;
  py_str := py_repr;
|}.

(** ** Sample data

    A disconnected client, the announcement of the endpoint
    [/messages?sessionId=42], the client once that announcement has been
    dispatched, some events, and an environment in which the POST is
    accepted. *)

Definition disconnected : world := MCPClient_init "https://host/sse?code=ABC" None 30.

Definition endpoint_event : sse_event := Sse (Some "endpoint") "/messages?sessionId=42".

Definition connected : world := listen (L:=lite) [endpoint_event] disconnected.

Definition tools_response : sse_event :=
  Sse None (JsonLite.text "{'jsonrpc': '2.0', 'id': 'rid-0', 'result': {'tools': [{'name': 'search'}]}}").

Definition tools_envelope : json :=
  JObj [("jsonrpc", JStr "2.0"); ("id", JStr "rid-0");
        ("result", JObj [("tools", JArr [JObj [("name", JStr "search")]])])].

Definition accepted (in_wait : list sse_event) : rpc_env :=
  RpcEnv [] (Reply 202 EmptyString) in_wait [].


Definition stray_response : sse_event :=
  Sse None (JsonLite.text "{'id': 'rid-7', 'result': {}}").

(** The connected client with one call issued and not yet answered. *)
Definition calling : world := run (L:=lite) [Issue] connected.

(** A payload that is not JSON: an integer literal of [n] digits followed
    by a stray letter. *)
Fixpoint ones (n : nat) : string :=
  match n with
  | O => EmptyString
  | S n' => String "1"%char (ones n')
  end.

Definition number_and_letter (n : nat) : string := ones n +:+ " x".

(** * Properties *)

Section Properties.
Context {L : PyLib}.

Implicit Types (w : world) (e : sse_event) (rid : string) (ref : nat).

Ltac unfold_m :=
  unfold bind, get_self, lift, modify, ret, raise, background in *.

(** ** What one dispatch can do *)

(** The four outcomes of the handler: the event is ignored; an exception
    escapes and nothing was written; the write endpoint, unknown so far,
    is recorded; a pending entry is removed and its holder resolved. *)
Inductive handled (event : option string) (data : string) (w : world)
    : (exn + unit) * world → Prop :=
| h_ignored : handled event data w (inr tt, w)
| h_raised x : handled event data w (inl x, w)
| h_endpoint u :
    write_url (self w) = None →
    handled event data w (inr tt, set_write_url u w)
| h_resolved d rid ref :
    json_loads data = inr (JObj d) →
    PyVal.get "id" d = Some (JStr rid) →
    _pending (self w) !! rid = Some ref →
    handled event data w
      (inr tt, set_heap (λ h, <[ref := Holder true (Some (JObj d))]> h)
                 (set_pending (delete rid) w)).

Lemma handle_cases event data w :
  handled event data w (_handle_sse_event event data w).
Proof.
  unfold _handle_sse_event. unfold_m.
  destruct (bool_decide (event = Some "endpoint") && PyStr.truthy data
            && bool_decide (write_url (self w) = None)) eqn:Hb.
  - apply andb_true_iff in Hb as [_ Hn%bool_decide_eq_true].
    destruct (_qualify_endpoint (self w) (JStr data)); constructor; done.
  - destruct (json_loads data) as [[]|[| | | | | |d]] eqn:Hj; try constructor.
    destruct (write_url (self w)) eqn:Hu, (PyVal.get "endpoint" d) eqn:He.
    all: try (destruct (_qualify_endpoint (self w) j); constructor; done).
    all: destruct (PyVal.get "id" d) as [key|] eqn:Hid; try constructor.
    all: destruct key as [| | | |rid| |]; simpl; try constructor.
    all: try (destruct (bool_decide (_pending (self w) = ∅)); constructor).
    all: destruct (_pending (self w) !! rid) eqn:Hp; simpl; try constructor.
    all: done.
Qed.

Ltac handle_inv event data w :=
  let Hc := fresh "Hc" in
  let E := fresh "E" in
  pose proof (handle_cases event data w) as Hc;
  destruct (_handle_sse_event event data w) as [? ?] eqn:E;
  inversion Hc; subst; clear Hc; simpl in *.

Lemma handle_write_url_fixed event data w u :
  write_url (self w) = Some u →
  write_url (self (_handle_sse_event event data w).2) = Some u.
Proof.
  intros Hu. handle_inv event data w; congruence.
Qed.

Lemma handle_base_fixed event data w :
  base_sse_url (self (_handle_sse_event event data w).2) = base_sse_url (self w)
  ∧ function_key (self (_handle_sse_event event data w).2) = function_key (self w)
  ∧ posted (_handle_sse_event event data w).2 = posted w
  ∧ drawn (_handle_sse_event event data w).2 = drawn w.
Proof. handle_inv event data w; done. Qed.

(** An invariant of the handler is an invariant of the listener. *)
Lemma listen_invariant (P : world → Prop) :
  (∀ event data w, P w → P (_handle_sse_event event data w).2) →
  ∀ evs w, P w → P (listen evs w).
Proof.
  intros Hstep evs. induction evs as [|e evs IH]; intros w Hw; simpl; [done|].
  specialize (Hstep (name e) (data e) w Hw).
  destruct (_handle_sse_event (name e) (data e) w) as [[x|[]] w']; simpl in *; auto.
Qed.

(** Either the listener dies inside the first batch, or it goes on with
    the second. *)
Lemma listen_app evs1 evs2 w :
  listen (evs1 ++ evs2) w = listen evs1 w
  ∨ listen (evs1 ++ evs2) w = listen evs2 (listen evs1 w).
Proof.
  revert w. induction evs1 as [|e evs1 IH]; intros w; simpl; [by right|].
  destruct (_handle_sse_event (name e) (data e) w) as [[x|[]] w']; auto.
Qed.

Lemma act_write_url_fixed a w u :
  write_url (self w) = Some u → write_url (self (act a w)) = Some u.
Proof.
  intros Hu. destruct a as [e| |rid]; simpl.
  - by apply handle_write_url_fixed.
  - rewrite Hu. done.
  - destruct (_pending (self w) !! rid); done.
Qed.

Lemma run_invariant (P : world → Prop) :
  (∀ a w, P w → P (act a w)) → ∀ tr w, P w → P (run tr w).
Proof.
  intros Hstep tr. induction tr as [|a tr IH]; intros w Hw; simpl; [done|].
  apply IH, Hstep, Hw.
Qed.

Lemma run_app tr1 tr2 w : run (tr1 ++ tr2) w = run tr2 (run tr1 w).
Proof. apply foldl_app. Qed.

(** C7 (first endpoint wins).  Once [write_url] holds an endpoint, no
    dispatch changes it, whether the event is a named [endpoint] event or
    a JSON payload with an [endpoint] key; the same holds for every
    sequence of events the listener dispatches, for every interleaving of
    dispatches with the steps of callers, and for every continuation of a
    sequence of events after which an endpoint is known. *)
Theorem first_endpoint_wins w u :
  write_url (self w) = Some u →
  (∀ event data, write_url (self (_handle_sse_event event data w).2) = Some u)
  ∧ (∀ evs, write_url (self (listen evs w)) = Some u)
  ∧ (∀ tr, write_url (self (run tr w)) = Some u)
  ∧ (∀ w0 evs1 evs2, listen evs1 w0 = w →
       write_url (self (listen (evs1 ++ evs2) w0)) = Some u).
Proof.
  intros Hu. split_and!.
  - intros. by apply handle_write_url_fixed.
  - intros evs. apply (listen_invariant (λ w, write_url (self w) = Some u)); [|done].
    intros. by apply handle_write_url_fixed.
  - intros tr. apply (run_invariant (λ w, write_url (self w) = Some u)); [|done].
    intros. by apply act_write_url_fixed.
  - intros w0 evs1 evs2 <-.
    destruct (listen_app evs1 evs2 w0) as [-> | ->]; [done|].
    apply (listen_invariant (λ w, write_url (self w) = Some u)); [|done].
    intros. by apply handle_write_url_fixed.
Qed.

(** X17 (what the handler does when [json.loads] raises).  The event is
    not taken as a bare endpoint announcement: its name is not
    [endpoint], or its payload is empty, or an endpoint is already known.
    When [json.loads] raises [JSONDecodeError] on the payload, the
    handler returns normally and the whole state, the write endpoint and
    the pending table included, is what it was.  When [json.loads] raises
    anything else, the [except] clause does not catch it: the exception
    leaves the handler, the state being what it was, and the listener
    ends with it. *)
Theorem malformed_event_ignored event data w :
  event ≠ Some "endpoint" ∨ data = EmptyString ∨ write_url (self w) ≠ None →
  (json_loads data = inl JSONDecodeError →
   _handle_sse_event event data w = (inr tt, w))
  ∧ (∀ x evs, json_loads data = inl x → x ≠ JSONDecodeError →
              _handle_sse_event event data w = (inl x, w)
              ∧ listen (Sse event data :: evs) w = w).
Proof.
  intros Hnot.
  assert (bool_decide (event = Some "endpoint") && PyStr.truthy data
          && bool_decide (write_url (self w) = None) = false) as Hb.
  { destruct (bool_decide (event = Some "endpoint") && PyStr.truthy data
              && bool_decide (write_url (self w) = None)) eqn:Hb; [|done].
    apply andb_true_iff in Hb as [Hb Hn%bool_decide_eq_true].
    apply andb_true_iff in Hb as [He%bool_decide_eq_true Hd].
    destruct Hnot as [?|[->|?]]; done. }
  split.
  - intros Hj. unfold _handle_sse_event. unfold_m. by rewrite Hb, Hj.
  - intros x evs Hj Hx.
    assert (_handle_sse_event event data w = (inl x, w)) as Hh.
    { unfold _handle_sse_event. unfold_m. rewrite Hb, Hj. by destruct x. }
    split; [done|]. simpl. by rewrite Hh.
Qed.

Lemma handle_unknown_id event data w d key :
  json_loads data = inr (JObj d) →
  PyVal.get "id" d = Some key →
  (∀ rid, key = JStr rid → _pending (self w) !! rid = None) →
  _pending (self (_handle_sse_event event data w).2) = _pending (self w)
  ∧ heap (_handle_sse_event event data w).2 = heap w.
Proof.
  intros Hj Hid Hnone. handle_inv event data w; try done.
  match goal with
  | Hp : _pending (self w) !! ?r = Some _ |- _ =>
      assert (key = JStr r) as Hk by congruence;
      rewrite (Hnone r Hk) in Hp; discriminate
  end.
Qed.

(** C6 (a response with no pending entry is dropped).  When the payload
    is a JSON object with an [id] and the table has no entry under that
    id, the dispatch leaves the table as it was, removing nothing, and
    leaves every holder as it was, signalling no waiter. *)
Theorem unknown_id_dropped event data w d key :
  json_loads data = inr (JObj d) →
  PyVal.get "id" d = Some key →
  (∀ rid, key = JStr rid → _pending (self w) !! rid = None) →
  _pending (self (_handle_sse_event event data w).2) = _pending (self w)
  ∧ heap (_handle_sse_event event data w).2 = heap w.
Proof.
  intros. by eapply handle_unknown_id.
Qed.

(** ** One call against the listener *)

Lemma correlates_intro rid e d :
  json_loads (data e) = inr (JObj d) →
  PyVal.get "id" d = Some (JStr rid) →
  correlates rid e = true.
Proof.
  intros Hj Hid. unfold correlates. rewrite Hj, Hid. by apply bool_decide_eq_true.
Qed.

Lemma correlates_elim rid e :
  correlates rid e = true →
  ∃ d, json_loads (data e) = inr (JObj d) ∧ PyVal.get "id" d = Some (JStr rid).
Proof.
  unfold correlates.
  destruct (json_loads (data e)) as [[]|[| | | | | |d]]; try done.
  destruct (PyVal.get "id" d) as [[| | | |s| |]|] eqn:Hid; try done.
  intros ->%bool_decide_eq_true. by exists d.
Qed.

Lemma pend_step rid ref e w :
  pend rid ref w → correlates rid e = false →
  pend rid ref (_handle_sse_event (name e) (data e) w).2.
Proof.
  intros (Hu & Hp & Huniq & Hh) Hc. unfold pend.
  handle_inv (name e) (data e) w; try done.
  match goal with
  | Hj : json_loads _ = inr (JObj ?d), Hid : PyVal.get "id" ?d = Some (JStr ?r),
    Hq : _pending (self w) !! ?r = Some ?n |- _ =>
      assert (r ≠ rid) as Hne
        by (intros ->; rewrite (correlates_intro rid e d Hj Hid) in Hc; done);
      assert (n ≠ ref) as Hnr by (intros ->; by apply Hne, Huniq)
  end.
  split_and!; [done| |..].
  - by rewrite lookup_delete_ne.
  - intros k Hk. apply lookup_delete_Some in Hk as [_ Hk]. by apply Huniq.
  - by rewrite list_lookup_insert_ne.
Qed.

Lemma pend_harmless rid ref e w :
  pend rid ref w → unhashable_id e = false → loads_escapes e = false →
  (_handle_sse_event (name e) (data e) w).1 = inr tt.
Proof.
  intros (Hu & _) Hc Hl. unfold _handle_sse_event, unhashable_id, loads_escapes in *.
  unfold_m.
  destruct (write_url (self w)) as [u|] eqn:Hw; [|congruence].
  rewrite (bool_decide_eq_false_2 (Some u = None)) by done. rewrite andb_false_r.
  destruct (json_loads (data e)) as [[]|[| | | | | |d]]; try done.
  destruct (PyVal.get "endpoint" d), (PyVal.get "id" d) as [[| | | |s| |]|];
    simpl; try done.
  all: destruct (_pending (self w) !! s); done.
Qed.

Lemma pend_resolve rid ref e d w :
  pend rid ref w →
  json_loads (data e) = inr (JObj d) →
  PyVal.get "id" d = Some (JStr rid) →
  (_handle_sse_event (name e) (data e) w).1 = inr tt
  ∧ res rid ref d (_handle_sse_event (name e) (data e) w).2.
Proof.
  intros (Hu & Hp & Huniq & Hh) Hj Hid.
  assert (_handle_sse_event (name e) (data e) w
          = (inr tt, set_heap (λ h, <[ref := Holder true (Some (JObj d))]> h)
                       (set_pending (delete rid) w))) as ->.
  { unfold _handle_sse_event. unfold_m.
    destruct (write_url (self w)) as [u|] eqn:Hw; [|congruence].
    rewrite (bool_decide_eq_false_2 (Some u = None)) by done. rewrite andb_false_r.
    rewrite Hj, Hid. simpl. rewrite Hp. by destruct (PyVal.get "endpoint" d). }
  split; [done|]. split_and!; simpl.
  - apply lookup_delete_eq.
  - intros k Hk. apply lookup_delete_Some in Hk as [Hne Hk]. by apply Hne, eq_sym, Huniq.
  - apply list_lookup_insert_eq. by eapply lookup_lt_Some.
Qed.

Lemma res_step rid ref d event data w :
  res rid ref d w → res rid ref d (_handle_sse_event event data w).2.
Proof.
  intros (Hgone & Hnone & Hh). unfold res. handle_inv event data w; try done.
  match goal with
  | Hq : _pending (self w) !! _ = Some ?n |- _ =>
      assert (n ≠ ref) as Hnr by (intros ->; by eapply Hnone)
  end.
  split_and!.
  - apply lookup_delete_None. by right.
  - intros k Hk. apply lookup_delete_Some in Hk as [_ Hk]. by eapply Hnone.
  - by rewrite list_lookup_insert_ne.
Qed.

Lemma listen_pend rid ref evs w :
  pend rid ref w → Forall (λ x, correlates rid x = false) evs →
  pend rid ref (listen evs w).
Proof.
  revert w. induction evs as [|e evs IH]; intros w Hw Hall; simpl; [done|].
  apply Forall_cons in Hall as [He Hall].
  pose proof (pend_step rid ref e w Hw He) as Hs.
  destruct (_handle_sse_event (name e) (data e) w) as [[x|[]] w']; simpl in *; auto.
Qed.

Lemma listen_res rid ref d evs w : res rid ref d w → res rid ref d (listen evs w).
Proof.
  apply (listen_invariant (res rid ref d)). intros. by apply res_step.
Qed.

Lemma listen_arrives rid ref e d evs w :
  pend rid ref w → arrives rid e evs →
  json_loads (data e) = inr (JObj d) →
  PyVal.get "id" d = Some (JStr rid) →
  res rid ref d (listen evs w).
Proof.
  intros Hw (pre & post & -> & Hpre) Hj Hid. revert w Hw.
  induction pre as [|x pre IH]; intros w Hw; simpl.
  - destruct (pend_resolve rid ref e d w Hw Hj Hid) as [Hok Hres].
    destruct (_handle_sse_event (name e) (data e) w) as [[?|[]] w']; simpl in *;
      [done|]. by apply listen_res.
  - apply Forall_cons in Hpre as [(Hc & Hu & Hl) Hpre].
    pose proof (pend_step rid ref x w Hw Hc) as Hs.
    pose proof (pend_harmless rid ref x w Hw Hu Hl) as Hn.
    destruct (_handle_sse_event (name x) (data x) w) as [[?|[]] w']; simpl in *;
      [done|]. by apply IH.
Qed.

(** Whatever the listener dispatches, the call stays pending or was
    resolved by an event of the batch that carries its id. *)
Lemma listen_outcome rid ref evs w :
  pend rid ref w →
  pend rid ref (listen evs w)
  ∨ ∃ e d, e ∈ evs ∧ json_loads (data e) = inr (JObj d)
           ∧ PyVal.get "id" d = Some (JStr rid) ∧ res rid ref d (listen evs w).
Proof.
  revert w. induction evs as [|e evs IH]; intros w Hw; simpl; [by left|].
  destruct (correlates rid e) eqn:Hc.
  - right. apply correlates_elim in Hc as (d & Hj & Hid).
    destruct (pend_resolve rid ref e d w Hw Hj Hid) as [Hok Hres].
    exists e, d. split_and!; [by left|done|done|].
    destruct (_handle_sse_event (name e) (data e) w) as [[?|[]] w']; simpl in *;
      [done|]. by apply listen_res.
  - pose proof (pend_step rid ref e w Hw Hc) as Hs.
    destruct (_handle_sse_event (name e) (data e) w) as [[?|[]] w']; simpl in *.
    + by left.
    + destruct (IH w' Hs) as [?|(e' & d & Hin & ?)]; [by left|].
      right. exists e', d. split; [by right|done].
Qed.

(** ** [_rpc], step by step *)

Lemma rpc_connected method params env w url :
  write_url (self w) = Some url →
  _rpc method params env w =
  let rid := uuid4 (drawn w) in
  let ref := length (heap w) in
  let w2 := at_post method params env w in
  match reply env with
  | PostRaises x => (inl x, w2)
  | Reply st text =>
      if (400 <=? st)%Z then
        (inl (MCPClientError (JStr ("HTTP " +:+ pretty st +:+ ": " +:+ text))), w2)
      else
        let w3 := listen (in_wait env) w2 in
        let h := default (Holder false None) (heap w3 !! ref) in
        if event_set h then
          match response h with
          | Some result => (check_error result, w3)
          | None => (inl KeyError, w3)
          end
        else
          (inl (MCPClientError (JStr ("Timeout waiting for response to " +:+ method))),
           (pending_pop (JStr rid) (listen (in_race env) w3)).2)
  end.
Proof.
  intros Hu. unfold _rpc, at_post, rpc_issue, session_post, new_rid, new_holder,
    register, read_holder. unfold_m. rewrite Hu. simpl.
  destruct (reply env) as [st text|x]; [|done]. simpl.
  destruct (400 <=? st)%Z; [done|].
  match goal with |- context [event_set ?h] => destruct h as [[] [result|]] end;
    simpl; try done.
  all: match goal with |- context [_pending (self ?x) !! ?k] =>
         destruct (_pending (self x) !! k) end; done.
Qed.

Lemma issue_pend w :
  wf w → write_url (self w) ≠ None →
  pend (uuid4 (drawn w)) (length (heap w)) (rpc_issue w).2.
Proof.
  intros Hwf Hu. unfold pend, rpc_issue, new_rid, new_holder, register. unfold_m. simpl.
  split_and!; [done| | |].
  - apply lookup_insert_eq.
  - intros k Hk. destruct (decide (k = uuid4 (drawn w))) as [|Hne]; [done|].
    rewrite lookup_insert_ne in Hk by done. apply Hwf in Hk. simpl in Hk. lia.
  - rewrite lookup_app_r by done. by rewrite Nat.sub_diag.
Qed.

Lemma at_post_pend method params env w :
  wf w → write_url (self w) ≠ None →
  Forall (λ x, correlates (uuid4 (drawn w)) x = false) (in_flight env) →
  pend (uuid4 (drawn w)) (length (heap w)) (at_post method params env w).
Proof.
  intros Hwf Hu Hall. unfold at_post, session_post.
  destruct (reply env); simpl; apply listen_pend; try done.
  all: by apply issue_pend.
Qed.

Lemma at_post_outcome method params env w :
  wf w → write_url (self w) ≠ None →
  let rid := uuid4 (drawn w) in
  let ref := length (heap w) in
  pend rid ref (at_post method params env w)
  ∨ ∃ e d, e ∈ in_flight env ∧ json_loads (data e) = inr (JObj d)
           ∧ PyVal.get "id" d = Some (JStr rid)
           ∧ res rid ref d (at_post method params env w).
Proof.
  intros Hwf Hu rid ref. unfold at_post, session_post.
  destruct (reply env); simpl; apply listen_outcome; by apply issue_pend.
Qed.

Lemma at_post_arrives method params env w e d :
  wf w → write_url (self w) ≠ None →
  arrives (uuid4 (drawn w)) e (in_flight env) →
  json_loads (data e) = inr (JObj d) →
  PyVal.get "id" d = Some (JStr (uuid4 (drawn w))) →
  res (uuid4 (drawn w)) (length (heap w)) d (at_post method params env w).
Proof.
  intros Hwf Hu Harr Hj Hid. unfold at_post, session_post.
  destruct (reply env); simpl; eapply listen_arrives; eauto; by apply issue_pend.
Qed.

(** The state in which the wait ends, for a response that reaches the
    call. *)
Lemma answered_res method params env w e d :
  wf w → write_url (self w) ≠ None →
  answered (uuid4 (drawn w)) e env →
  json_loads (data e) = inr (JObj d) →
  PyVal.get "id" d = Some (JStr (uuid4 (drawn w))) →
  res (uuid4 (drawn w)) (length (heap w)) d (listen (in_wait env) (at_post method params env w)).
Proof.
  intros Hwf Hu [Hfl|[Hfl Hwa]] Hj Hid.
  - apply listen_res. by eapply at_post_arrives.
  - eapply listen_arrives; eauto. by apply at_post_pend.
Qed.

(** The same state, whatever was dispatched. *)
Lemma wait_outcome method params env w :
  wf w → write_url (self w) ≠ None →
  let rid := uuid4 (drawn w) in
  let ref := length (heap w) in
  let w3 := listen (in_wait env) (at_post method params env w) in
  pend rid ref w3
  ∨ ∃ e d, e ∈ (in_flight env ++ in_wait env)%list
           ∧ json_loads (data e) = inr (JObj d)
           ∧ PyVal.get "id" d = Some (JStr rid) ∧ res rid ref d w3.
Proof.
  intros Hwf Hu rid ref w3.
  destruct (at_post_outcome method params env w Hwf Hu)
    as [Hp|(e & d & Hin & Hj & Hid & Hr)].
  - destruct (listen_outcome rid ref (in_wait env) _ Hp)
      as [?|(e & d & Hin & Hj & Hid & Hr)]; [by left|].
    right. exists e, d. split_and!; try done. apply elem_of_app. by right.
  - right. exists e, d. split_and!; try done.
    + apply elem_of_app. by left.
    + by apply listen_res.
Qed.

Lemma rpc_result_res method params env w url st text d :
  write_url (self w) = Some url →
  reply env = Reply st text → st < 400 →
  res (uuid4 (drawn w)) (length (heap w)) d (listen (in_wait env) (at_post method params env w)) →
  _rpc method params env w =
  (match PyVal.get "error" d with
   | Some err => inl (MCPClientError err)
   | None => inr (JObj d)
   end, listen (in_wait env) (at_post method params env w)).
Proof.
  intros Hu Hre Hst (_ & _ & Hh). rewrite (rpc_connected _ _ _ _ _ Hu), Hre. simpl.
  destruct (Z.leb_spec 400 st); [lia|]. rewrite Hh. simpl.
  by destruct (PyVal.get "error" d).
Qed.


Lemma rpc_disconnected method params env w :
  write_url (self w) = None →
  _rpc method params env w =
  (inl (MCPClientError (JStr "Not connected or write endpoint not discovered")), w).
Proof. intros Hu. unfold _rpc. unfold_m. by rewrite Hu. Qed.

(** C1, as the code has it.  When the POST is accepted and the response
    carrying the call's id reaches the call without an [error] field,
    [_rpc] returns the whole response object, the envelope with its
    [jsonrpc], [id] and [result] fields, not the [result] field alone.
    It is [list_tools] that takes the [result] field of what [_rpc]
    returned and yields the [tools] payload found there. *)
Theorem rpc_returns_envelope method params env w url st text e d :
  write_url (self w) = Some url → wf w →
  reply env = Reply st text → st < 400 →
  answered (uuid4 (drawn w)) e env →
  json_loads (data e) = inr (JObj d) →
  PyVal.get "id" d = Some (JStr (uuid4 (drawn w))) →
  PyVal.get "error" d = None →
  (_rpc method params env w).1 = inr (JObj d)
  ∧ (∀ result tools,
       PyVal.get "result" d = Some (JObj result) →
       PyVal.get "tools" result = Some tools →
       (list_tools env w).1 = inr tools).
Proof.
  intros Hu Hwf Hre Hst Hans Hj Hid Herr.
  assert (write_url (self w) ≠ None) as Hu' by congruence.
  split.
  - rewrite (rpc_result_res _ _ _ _ _ _ _ d Hu Hre Hst).
    + by rewrite Herr.
    + by eapply answered_res.
  - intros result tools Hres Htools. unfold list_tools. unfold_m.
    rewrite (rpc_result_res _ _ _ _ _ _ _ d Hu Hre Hst) by (by eapply answered_res).
    rewrite Herr. simpl. rewrite Hres. simpl. by rewrite Htools.
Qed.


Lemma handle_keeps_entry rid ref e w :
  correlates rid e = false →
  _pending (self w) !! rid = Some ref →
  _pending (self (_handle_sse_event (name e) (data e) w).2) !! rid = Some ref.
Proof.
  intros Hc Hp. handle_inv (name e) (data e) w; try done.
  rewrite lookup_delete_ne; [done|].
  intros ->. erewrite correlates_intro in Hc; done.
Qed.

Lemma listen_keeps_entry rid ref evs w :
  Forall (λ x, correlates rid x = false) evs →
  _pending (self w) !! rid = Some ref →
  _pending (self (listen evs w)) !! rid = Some ref.
Proof.
  revert w. induction evs as [|e evs IH]; intros w Hall Hp; simpl; [done|].
  apply Forall_cons in Hall as [He Hall].
  pose proof (handle_keeps_entry rid ref e w He Hp) as Hs.
  destruct (_handle_sse_event (name e) (data e) w) as [[x|[]] w']; simpl in *; auto.
Qed.

(** C9 (a refused POST leaves the entry behind).  When the POST comes
    back with a status of 400 or more, [_rpc] raises at once: the state
    it leaves is the state in which the POST returned, so the wait never
    started and nothing was removed on the way out.  The entry registered
    for the call is still in the table, unless a response carrying its id
    was dispatched while the POST was in flight. *)
Theorem post_error_leaves_entry method params env w url st text :
  write_url (self w) = Some url →
  reply env = Reply st text → (400 ≤ st)%Z →
  (_rpc method params env w).1 =
    inl (MCPClientError (JStr ("HTTP " +:+ pretty st +:+ ": " +:+ text)))
  ∧ (_rpc method params env w).2 = at_post method params env w
  ∧ (Forall (λ x, correlates (uuid4 (drawn w)) x = false) (in_flight env) →
     _pending (self (_rpc method params env w).2) !! uuid4 (drawn w)
     = Some (length (heap w))).
Proof.
  intros Hu Hre Hst. rewrite (rpc_connected _ _ _ _ _ Hu), Hre. simpl.
  destruct (Z.leb_spec 400 st); [|lia]. simpl. split_and!; [done|done|].
  intros Hall. unfold at_post, session_post. rewrite Hre. simpl.
  apply listen_keeps_entry; [done|]. simpl. apply lookup_insert_eq.
Qed.

(** C10 (no call without an endpoint).  While [write_url] is [None],
    [_rpc] raises [MCPClientError] and leaves the state exactly as it
    was: no id has been drawn, the pending table has no new entry, and no
    POST has been sent.  [initialize], [list_tools], [call_tool],
    [search] and [search_by_doc_id] fail in the same way. *)
Theorem rpc_requires_endpoint w :
  write_url (self w) = None →
  let err := MCPClientError (JStr "Not connected or write endpoint not discovered") in
  (∀ method params env, _rpc method params env w = (inl err, w))
  ∧ (∀ pv cn cv env, initialize pv cn cv env w = (inl err, w))
  ∧ (∀ env, list_tools env w = (inl err, w))
  ∧ (∀ name arguments env, call_tool name arguments env w = (inl err, w))
  ∧ (∀ query env, search query env w = (inl err, w))
  ∧ (∀ doc_id env, search_by_doc_id doc_id env w = (inl err, w)).
Proof.
  intros Hu err. split_and!; intros;
    unfold initialize, search, search_by_doc_id, call_tool, list_tools; unfold_m;
    by rewrite rpc_disconnected.
Qed.

(** ** The life of a pending entry, under every interleaving *)

Lemma act_drawn a w : (drawn w ≤ drawn (act a w))%nat.
Proof.
  destruct a as [e| |r]; simpl.
  - by rewrite (proj2 (proj2 (proj2 (handle_base_fixed (name e) (data e) w)))).
  - destruct (write_url (self w)); simpl; lia.
  - by destruct (_pending (self w) !! r).
Qed.

Lemma act_keeps_entry rid ref a w :
  resolves rid a = false → uuid4 (drawn w) ≠ rid →
  _pending (self w) !! rid = Some ref →
  _pending (self (act a w)) !! rid = Some ref.
Proof.
  intros Hq Hfresh Hp. destruct a as [e| |r]; simpl in *.
  - by apply handle_keeps_entry.
  - destruct (write_url (self w)); simpl; [|done]. by rewrite lookup_insert_ne.
  - apply bool_decide_eq_false in Hq.
    destruct (_pending (self w) !! r); simpl; [|done]. by rewrite lookup_delete_ne.
Qed.

Lemma act_keeps_absent rid a w :
  uuid4 (drawn w) ≠ rid →
  _pending (self w) !! rid = None →
  _pending (self (act a w)) !! rid = None.
Proof.
  intros Hfresh Hp. destruct a as [e| |r]; simpl in *.
  - handle_inv (name e) (data e) w; try done.
    apply lookup_delete_None. by right.
  - destruct (write_url (self w)); simpl; [|done]. by rewrite lookup_insert_ne.
  - destruct (_pending (self w) !! r); simpl; [|done].
    apply lookup_delete_None. by right.
Qed.

Lemma act_resolves rid a w :
  write_url (self w) ≠ None → resolves rid a = true →
  _pending (self (act a w)) !! rid = None.
Proof.
  intros Hu Hr. destruct a as [e| |r]; simpl in *; [|done|].
  - apply correlates_elim in Hr as (d & Hj & Hid).
    unfold _handle_sse_event. unfold_m.
    destruct (write_url (self w)) as [u|] eqn:Hw; [|done].
    rewrite (bool_decide_eq_false_2 (Some u = None)) by done. rewrite andb_false_r.
    rewrite Hj, Hid.
    destruct (PyVal.get "endpoint" d); simpl;
      destruct (_pending (self w) !! rid) eqn:Hp; simpl; try done;
      apply lookup_delete_eq.
  - apply bool_decide_eq_true in Hr as ->.
    destruct (_pending (self w) !! rid) eqn:Hp; simpl; [|done]. apply lookup_delete_eq.
Qed.

Lemma act_absent_noop rid a w :
  resolves rid a = true →
  _pending (self w) !! rid = None →
  _pending (self (act a w)) = _pending (self w) ∧ heap (act a w) = heap w.
Proof.
  intros Hr Hp. destruct a as [e| |r]; simpl in *; [|done|].
  - apply correlates_elim in Hr as (d & Hj & Hid).
    eapply handle_unknown_id; eauto. by intros ? [= <-].
  - apply bool_decide_eq_true in Hr as ->. by rewrite Hp.
Qed.

Lemma run_keeps_entry rid ref n tr w :
  (∀ m, (n < m)%nat → uuid4 m ≠ rid) → (n < drawn w)%nat →
  Forall (λ a, resolves rid a = false) tr →
  _pending (self w) !! rid = Some ref →
  _pending (self (run tr w)) !! rid = Some ref ∧ (n < drawn (run tr w))%nat.
Proof.
  intros Hfresh. revert w. induction tr as [|a tr IH]; intros w Hn Hall Hp; [done|].
  apply Forall_cons in Hall as [Ha Hall]. simpl. apply IH; [|done|].
  - pose proof (act_drawn a w). lia.
  - apply act_keeps_entry; auto.
Qed.

Lemma run_keeps_absent rid n tr w :
  (∀ m, (n < m)%nat → uuid4 m ≠ rid) → (n < drawn w)%nat →
  _pending (self w) !! rid = None →
  _pending (self (run tr w)) !! rid = None.
Proof.
  intros Hfresh. revert w. induction tr as [|a tr IH]; intros w Hn Hp; [done|].
  simpl. apply IH.
  - pose proof (act_drawn a w). lia.
  - apply act_keeps_absent; auto.
Qed.

Lemma pop_absent rid w :
  _pending (self (pending_pop (JStr rid) w).2) !! rid = None.
Proof.
  simpl. destruct (_pending (self w) !! rid) eqn:Hp; simpl; [|done].
  apply lookup_delete_eq.
Qed.

(** A call whose POST was accepted leaves no entry behind, whether its
    wait ended with the response or with the timeout. *)
Lemma rpc_leaves_no_entry method params env w url st text :
  write_url (self w) = Some url → wf w →
  reply env = Reply st text → st < 400 →
  _pending (self (_rpc method params env w).2) !! uuid4 (drawn w) = None.
Proof.
  intros Hu Hwf Hre Hst.
  assert (write_url (self w) ≠ None) as Hu' by congruence.
  destruct (wait_outcome method params env w Hwf Hu')
    as [Hp|(e & d & _ & _ & _ & Hr)].
  - rewrite (rpc_connected _ _ _ _ _ Hu), Hre. simpl.
    destruct (Z.leb_spec 400 st); [lia|].
    destruct Hp as (_ & _ & _ & ->). simpl. apply pop_absent.
  - rewrite (rpc_result_res _ _ _ _ _ _ _ d Hu Hre Hst Hr). simpl. by destruct Hr.
Qed.

(** C3 (one entry per call, from issue to response or timeout).  Let a
    call be issued with a known endpoint and draw an id that no later
    draw repeats.  Right after the issue the table holds the entry of the
    id.  It holds that same entry after every interleaving of dispatches,
    other issues and other timeouts in which no response carries the id
    and the call does not time out.  After the first step that is such a
    response or that timeout the id is absent, and stays absent whatever
    follows; and when the other of the two comes later it finds nothing:
    it leaves the table and every holder as they were.  Seen from the
    call itself: when [_rpc] returns or raises after its POST was
    accepted, that is after the response or the timeout of its wait, the
    table has no entry for its id. *)
Theorem pending_lifecycle w url :
  write_url (self w) = Some url →
  (∀ m, (drawn w < m)%nat → uuid4 m ≠ uuid4 (drawn w)) →
  let rid := uuid4 (drawn w) in
  let ref := length (heap w) in
  let w1 := act Issue w in
  _pending (self w1) !! rid = Some ref
  ∧ (∀ tr, Forall (λ a, resolves rid a = false) tr →
       _pending (self (run tr w1)) !! rid = Some ref)
  ∧ (∀ tr a tr',
       Forall (λ a, resolves rid a = false) tr → resolves rid a = true →
       _pending (self (run (tr ++ a :: tr') w1)) !! rid = None)
  ∧ (∀ tr a tr' b,
       Forall (λ a, resolves rid a = false) tr → resolves rid a = true →
       resolves rid b = true →
       _pending (self (act b (run (tr ++ a :: tr') w1)))
       = _pending (self (run (tr ++ a :: tr') w1))
       ∧ heap (act b (run (tr ++ a :: tr') w1)) = heap (run (tr ++ a :: tr') w1))
  ∧ (∀ method params env st text,
       wf w → reply env = Reply st text → st < 400 →
       _pending (self (_rpc method params env w).2) !! rid = None).
Proof.
  intros Hu Hfresh rid ref w1.
  assert (_pending (self w1) !! rid = Some ref) as H1.
  { unfold w1. simpl. rewrite Hu. simpl. apply lookup_insert_eq. }
  assert (drawn w < drawn w1)%nat as Hd.
  { unfold w1. simpl. rewrite Hu. simpl. lia. }
  assert (write_url (self w1) = Some url) as Hu1 by (by apply act_write_url_fixed).
  assert (∀ tr a tr',
            Forall (λ a, resolves rid a = false) tr → resolves rid a = true →
            _pending (self (run (tr ++ a :: tr') w1)) !! rid = None) as Hgone.
  { intros tr a tr' Hq Hr.
    destruct (run_keeps_entry rid ref (drawn w) tr w1 Hfresh Hd Hq H1) as [_ Hd'].
    rewrite run_app. simpl.
    apply (run_keeps_absent rid (drawn w)); [done| |].
    - pose proof (act_drawn a (run tr w1)). lia.
    - apply act_resolves; [|done].
      erewrite (run_invariant (λ w, write_url (self w) = Some url)); [done| |done].
      intros. by apply act_write_url_fixed. }
  split_and!; [done| |done| |].
  - intros tr Hq. by apply (run_keeps_entry rid ref (drawn w) tr w1).
  - intros tr a tr' b Hq Hr Hb. apply (act_absent_noop rid); [done|]. by apply Hgone.
  - intros method params env st text Hwf Hre Hst. by eapply rpc_leaves_no_entry.
Qed.

(** ** The handshake *)

Lemma truthy_nonempty s : PyStr.truthy s = true ↔ s ≠ EmptyString.
Proof. by destruct s. Qed.

Lemma qualify_ext c c' v :
  base_sse_url c = base_sse_url c' → function_key c = function_key c' →
  _qualify_endpoint c v = _qualify_endpoint c' v.
Proof. intros Hb Hk. unfold _qualify_endpoint. by rewrite Hb, Hk. Qed.

Lemma handle_no_announce e w :
  announces e = false → write_url (self w) = None →
  write_url (self (_handle_sse_event (name e) (data e) w).2) = None.
Proof.
  unfold announces, _handle_sse_event. unfold_m. intros Ha Hu.
  apply orb_false_iff in Ha as [Hbare Hjson]. rewrite Hu.
  rewrite (bool_decide_eq_true_2 (None = None)) by done. rewrite andb_true_r, Hbare.
  destruct (json_loads (data e)) as [[]|[| | | | | |d]]; try done.
  unfold PyVal.has_key in Hjson. apply bool_decide_eq_false in Hjson.
  destruct (PyVal.get "endpoint" d) eqn:He; [by destruct Hjson|].
  destruct (PyVal.get "id" d) as [[| | | |s| |]|]; simpl; try done.
  all: try (by destruct (bool_decide (_pending (self w) = ∅))).
  by destruct (_pending (self w) !! s).
Qed.

Lemma handle_benign e w :
  announces e = false → unhashable_id e = false → loads_escapes e = false →
  (_handle_sse_event (name e) (data e) w).1 = inr tt.
Proof.
  unfold announces, unhashable_id, loads_escapes, _handle_sse_event. unfold_m.
  intros Ha Hh Hl.
  apply orb_false_iff in Ha as [Hbare Hjson]. rewrite Hbare. simpl.
  destruct (json_loads (data e)) as [[]|[| | | | | |d]]; try done.
  unfold PyVal.has_key in Hjson. apply bool_decide_eq_false in Hjson.
  destruct (PyVal.get "endpoint" d) eqn:He; [by destruct Hjson|].
  destruct (write_url (self w));
    destruct (PyVal.get "id" d) as [[| | | |k| |]|]; simpl in *; try done;
    by destruct (_pending (self w) !! k).
Qed.

Lemma listen_no_announce evs w :
  Forall (λ x, announces x = false) evs → write_url (self w) = None →
  write_url (self (listen evs w)) = None.
Proof.
  revert w. induction evs as [|e evs IH]; intros w Hall Hu; simpl; [done|].
  apply Forall_cons in Hall as [He Hall].
  pose proof (handle_no_announce e w He Hu) as Hs.
  destruct (_handle_sse_event (name e) (data e) w) as [[x|[]] w']; simpl in *; auto.
Qed.

Lemma handle_discovers e w u :
  write_url (self w) = None → discovers (self w) e u →
  _handle_sse_event (name e) (data e) w = (inr tt, set_write_url u w).
Proof.
  intros Hu Hd. unfold _handle_sse_event. unfold_m. rewrite Hu.
  rewrite (bool_decide_eq_true_2 (None = None)) by done. rewrite andb_true_r.
  destruct Hd as [(Hn & Hd & Hq)|(Hnot & d & v & Hj & He & Hq)].
  - rewrite (bool_decide_eq_true_2 _ Hn). apply truthy_nonempty in Hd.
    rewrite Hd. simpl. by rewrite Hq.
  - assert (bool_decide (name e = Some "endpoint") && PyStr.truthy (data e) = false) as ->.
    { apply andb_false_iff.
      destruct (decide (name e = Some "endpoint")) as [Hn|Hn].
      - right. destruct (data e); [done|]. by destruct Hnot.
      - left. by apply bool_decide_eq_false. }
    rewrite Hj, He. by rewrite Hq.
Qed.

Lemma handle_wf event data w : wf w → wf (_handle_sse_event event data w).2.
Proof.
  intros Hwf. handle_inv event data w; try done.
  intros k r Hk. simpl in *. apply lookup_delete_Some in Hk as [_ Hk].
  rewrite length_insert. by apply Hwf in Hk.
Qed.

Lemma listen_wf evs w : wf w → wf (listen evs w).
Proof. apply (listen_invariant wf). intros. by apply handle_wf. Qed.

Lemma listen_base evs w :
  base_sse_url (self (listen evs w)) = base_sse_url (self w)
  ∧ function_key (self (listen evs w)) = function_key (self w).
Proof.
  apply (listen_invariant
           (λ w', base_sse_url (self w') = base_sse_url (self w)
                  ∧ function_key (self w') = function_key (self w))); [|done].
  intros event data w' [<- <-].
  destruct (handle_base_fixed event data w') as (-> & -> & _). done.
Qed.

(** A batch in which an announcement is dispatched leaves its endpoint
    recorded. *)
Lemma discovers_ext c c' e u :
  base_sse_url c = base_sse_url c' → function_key c = function_key c' →
  discovers c e u → discovers c' e u.
Proof.
  intros Hb Hk [(? & ? & Hq)|(? & d & v & ? & ? & Hq)]; [left|right].
  - split_and!; [done|done|]. rewrite <- Hq. by apply qualify_ext.
  - split; [done|]. exists d, v. split_and!; [done|done|].
    rewrite <- Hq. by apply qualify_ext.
Qed.

Lemma listen_discovers pre e post w u :
  write_url (self w) = None →
  Forall (λ x, announces x = false ∧ unhashable_id x = false
               ∧ loads_escapes x = false) pre →
  discovers (self w) e u →
  write_url (self (listen (pre ++ e :: post) w)) = Some u.
Proof.
  revert w. induction pre as [|x pre IH]; intros w Hu Hpre Hd; simpl.
  - rewrite (handle_discovers e w u Hu Hd).
    apply (listen_invariant (λ w, write_url (self w) = Some u)); [|done].
    intros. by apply handle_write_url_fixed.
  - apply Forall_cons in Hpre as [(Ha & Hh & Hl) Hpre].
    pose proof (handle_no_announce x w Ha Hu) as Hs.
    pose proof (handle_benign x w Ha Hh Hl) as Hn.
    destruct (handle_base_fixed (name x) (data x) w) as (Hb & Hk & _).
    destruct (_handle_sse_event (name x) (data x) w) as [[?|[]] w']; simpl in *;
      [done|]. apply IH; [done|done|].
    by apply (discovers_ext (self w)).
Qed.

(** The loop ends, with no endpoint, at the latest where the clock has
    passed the window, when nothing dispatched up to there announces an
    endpoint; what comes after plays no part. *)
Lemma connect_wait_expired start hs before p after w :
  write_url (self w) = None → wf w →
  Forall (λ q, Forall (λ x, announces x = false) (arrived q)) before →
  Forall (λ x, announces x = false) (arrived p) →
  (hs ≤ now p - start)%Z →
  ∃ w', connect_wait start hs (before ++ p :: after) w = Some w'
        ∧ write_url (self w') = None ∧ wf w'
        ∧ base_sse_url (self w') = base_sse_url (self w)
        ∧ function_key (self w') = function_key (self w).
Proof.
  intros Hu Hwf Hbefore Hp Hlate. revert w Hu Hwf.
  induction before as [|q before IH]; intros w Hu Hwf; simpl.
  - rewrite (listen_no_announce _ _ Hp Hu).
    destruct (Z.ltb_spec (now p - start) hs); [lia|]. rewrite andb_false_r.
    destruct (listen_base (arrived p) w) as [Hb Hk].
    eexists. split_and!; [done|by apply listen_no_announce|by apply listen_wf|done..].
  - apply Forall_cons in Hbefore as [Hq Hbefore].
    pose proof (listen_no_announce _ _ Hq Hu) as Hu'. rewrite Hu'.
    rewrite (bool_decide_eq_true_2 (None = None)) by done. simpl.
    destruct (listen_base (arrived q) w) as [Hb Hk].
    destruct (now q - start <? hs)%Z.
    + destruct (IH Hbefore (listen (arrived q) w) Hu' (listen_wf _ _ Hwf))
        as (w' & ? & ? & ? & Hb' & Hk').
      exists w'. split_and!; [done|done|done|congruence|congruence].
    + eexists. split_and!; [done|done|by apply listen_wf|done..].
Qed.

Lemma connect_wait_found start hs before p after w u :
  write_url (self w) = None →
  Forall (λ q, Forall (λ x, announces x = false) (arrived q)
               ∧ (now q - start < hs)%Z) before →
  (∀ w0, write_url (self w0) = None →
         base_sse_url (self w0) = base_sse_url (self w) →
         function_key (self w0) = function_key (self w) →
         wf w0 →
         write_url (self (listen (arrived p) w0)) = Some u) →
  wf w →
  ∃ w', connect_wait start hs (before ++ p :: after) w = Some w'
        ∧ write_url (self w') = Some u ∧ wf w'.
Proof.
  intros Hu Hbefore Hfound Hwf.
  assert (∀ w0, write_url (self w0) = None →
            base_sse_url (self w0) = base_sse_url (self w) →
            function_key (self w0) = function_key (self w) →
            wf w0 →
            ∃ w', connect_wait start hs (before ++ p :: after) w0 = Some w'
                  ∧ write_url (self w') = Some u ∧ wf w') as Hgen; [|by apply Hgen].
  clear Hu Hwf. induction before as [|q before IH]; intros w0 Hu Hb Hk Hwf; simpl.
  - rewrite (Hfound w0 Hu Hb Hk Hwf). simpl.
    eexists. split_and!; [done|by apply Hfound|by apply listen_wf].
  - apply Forall_cons in Hbefore as [[Hq Hlt] Hbefore].
    pose proof (listen_no_announce _ _ Hq Hu) as Hu'. rewrite Hu'.
    rewrite (bool_decide_eq_true_2 (None = None)) by done. simpl.
    destruct (Z.ltb_spec (now q - start) hs); [|lia].
    destruct (listen_base (arrived q) w0) as [Hb' Hk'].
    apply IH; [done|done|congruence|congruence|by apply listen_wf].
Qed.

(** A call issued in a state with an endpoint returns the response that
    carries its id and no [error], once the POST is accepted and that
    response reaches it. *)
Lemma call_succeeds w u method params env st text r d :
  write_url (self w) = Some u → wf w →
  reply env = Reply st text → st < 400 →
  answered (uuid4 (drawn w)) r env →
  json_loads (data r) = inr (JObj d) →
  PyVal.get "id" d = Some (JStr (uuid4 (drawn w))) →
  PyVal.get "error" d = None →
  (_rpc method params env w).1 = inr (JObj d).
Proof.
  intros Hu Hwf Hre Hst Hans Hj Hid Herr.
  rewrite (rpc_result_res _ _ _ _ _ _ _ d Hu Hre Hst).
  - by rewrite Herr.
  - eapply answered_res; eauto. congruence.
Qed.

(** C5, as the code has it.  [connect] is run on a client that knows no
    endpoint yet; [p] is an evaluation of the loop condition, and nothing
    dispatched before the evaluations that precede it announces an
    endpoint.

    The window is tested at the loop condition only.  When the clock
    read at [p] has passed [handshake_timeout] and nothing dispatched up
    to [p] announces an endpoint, the loop is over, whatever would have
    come at later evaluations, an announcement included.  [connect] then
    raises the built-in [TimeoutError] (HandshakeTimeout) when nothing
    dispatched before its last test announces an endpoint either; but an
    announcement dispatched between the end of the loop and that test,
    after the window, makes [connect] return normally with the endpoint
    recorded.

    When all evaluations before [p] are within the window and an
    announcement is dispatched before [p], [connect] returns normally
    with the announced endpoint recorded.

    Where [connect] returns normally, a call issued next returns the
    response that carries its id and no [error], once the POST is
    accepted and that response reaches it. *)
Theorem connect_handshake hs start before p after late w :
  write_url (self w) = None → wf w →
  Forall (λ q, Forall (λ x, announces x = false) (arrived q)) before →
  (Forall (λ x, announces x = false) (arrived p) →
   (hs ≤ now p - start)%Z →
   (Forall (λ x, announces x = false) late →
    ∃ w', connect hs start (before ++ p :: after) late w
          = Some (inl (TimeoutError
                         "Did not receive session write endpoint via SSE handshake"),
                  w'))
   ∧ (∀ pre e post u,
        late = (pre ++ e :: post)%list →
        Forall (λ x, announces x = false ∧ unhashable_id x = false
                     ∧ loads_escapes x = false) pre →
        discovers (self w) e u →
        ∃ w', connect hs start (before ++ p :: after) late w = Some (inr tt, w')
              ∧ write_url (self w') = Some u
              ∧ (∀ method params env st text r d,
                   reply env = Reply st text → st < 400 →
                   answered (uuid4 (drawn w')) r env →
                   json_loads (data r) = inr (JObj d) →
                   PyVal.get "id" d = Some (JStr (uuid4 (drawn w'))) →
                   PyVal.get "error" d = None →
                   (_rpc method params env w').1 = inr (JObj d))))
  ∧ (Forall (λ q, (now q - start < hs)%Z) before →
     ∀ pre e post u,
       arrived p = (pre ++ e :: post)%list →
       Forall (λ x, announces x = false ∧ unhashable_id x = false
                    ∧ loads_escapes x = false) pre →
       discovers (self w) e u →
       ∃ w', connect hs start (before ++ p :: after) late w = Some (inr tt, w')
             ∧ write_url (self w') = Some u
             ∧ (∀ method params env st text r d,
                  reply env = Reply st text → st < 400 →
                  answered (uuid4 (drawn w')) r env →
                  json_loads (data r) = inr (JObj d) →
                  PyVal.get "id" d = Some (JStr (uuid4 (drawn w'))) →
                  PyVal.get "error" d = None →
                  (_rpc method params env w').1 = inr (JObj d))).
Proof.
  intros Hu Hwf Hquiet. split.
  - intros Hp Hover.
    destruct (connect_wait_expired start hs before p after w Hu Hwf Hquiet Hp Hover)
      as (w' & Hloop & Hu' & Hwf' & Hb & Hk).
    unfold connect. rewrite Hloop. split.
    + intros Hlate. rewrite (listen_no_announce late w' Hlate Hu'). eauto.
    + intros pre e post u -> Hpre Hd.
      assert (write_url (self (listen (pre ++ e :: post) w')) = Some u) as Hu''.
      { apply listen_discovers; [done|done|]. by apply (discovers_ext (self w)). }
      rewrite Hu''. eexists. split_and!; [done|done|].
      intros. eapply call_succeeds; eauto. by apply listen_wf.
  - intros Hin pre e post u Hp Hpre Hd. unfold connect.
    destruct (connect_wait_found start hs before p after w u Hu)
      as (w' & -> & Hu' & Hwf'); [| |done|].
    { apply Forall_forall. intros q Hq. split.
      - by apply (proj1 (Forall_forall _ _) Hquiet).
      - by apply (proj1 (Forall_forall _ _) Hin). }
    { intros w0 Hu0 Hb Hk _. rewrite Hp. apply listen_discovers; [done|done|].
      by apply (discovers_ext (self w)). }
    assert (write_url (self (listen late w')) = Some u) as Hu''.
    { apply (listen_invariant (λ w, write_url (self w) = Some u)); [|done].
      intros. by apply handle_write_url_fixed. }
    rewrite Hu''. eexists. split_and!; [done|done|].
    intros. eapply call_succeeds; eauto. by apply listen_wf.
Qed.

End Properties.

(** * The model at work *)

Section Examples.
Local Existing Instance lite.

Example urljoin_absolute_path :
  UrlLib.urljoin "https://host/" "/messages?sessionId=42"
  = inr "https://host/messages?sessionId=42".
Proof. reflexivity. Qed.

Example urljoin_relative_path :
  UrlLib.urljoin "https://host/runtime/webhooks/mcp/" "message?id=7"
  = inr "https://host/runtime/webhooks/mcp/message?id=7".
Proof. reflexivity. Qed.

Example urljoin_dot_segments :
  UrlLib.urljoin "http://a/b/c/d;p?q" "../g" = inr "http://a/b/g".
Proof. reflexivity. Qed.

Example urljoin_leading_blank :
  UrlLib.urljoin "https://host/" " /messages" = inr "https://host/messages".
Proof. reflexivity. Qed.

Example urljoin_other_host :
  UrlLib.urljoin "https://host/" "https://elsewhere/x" = inr "https://elsewhere/x".
Proof. reflexivity. Qed.

Example loads_response :
  JsonLite.loads (JsonLite.text "{'jsonrpc': '2.0', 'id': 'rid-0', 'result': {'tools': [1, -2]}}")
  = inr (JObj [("jsonrpc", JStr "2.0"); ("id", JStr "rid-0");
               ("result", JObj [("tools", JArr [JInt 1; JInt (-2)])])]).
Proof. vm_compute. reflexivity. Qed.

Example loads_noise : JsonLite.loads ": keep-alive" = inl JSONDecodeError.
Proof. reflexivity. Qed.

Example loads_trailing : JsonLite.loads "{} x" = inl JSONDecodeError.
Proof. reflexivity. Qed.

Example connected_write_url :
  write_url (self connected) = Some "https://host/messages?sessionId=42".
Proof. vm_compute. reflexivity. Qed.

Example run_list_tools :
  (list_tools (accepted [tools_response]) connected).1
  = inr (JArr [JObj [("name", JStr "search")]]).
Proof. vm_compute. reflexivity. Qed.

Example run_rpc :
  (_rpc "tools/list" (Some []) (accepted [tools_response]) connected).1
  = inr tools_envelope.
Proof. vm_compute. reflexivity. Qed.

Lemma connected_wf : wf connected.
Proof. intros k r Hk. vm_compute in Hk. discriminate. Qed.

Lemma lite_fresh_ids m : (0 < m)%nat → uuid4 m ≠ uuid4 0%nat.
Proof.
  intros Hm Heq. unfold uuid4, lite in Heq.
  change (String "r" (String "i" (String "d" (String "-" (pretty m))))
          = String "r" (String "i" (String "d" (String "-" (pretty 0%nat))))) in Heq.
  injection Heq as Heq. apply (inj pretty) in Heq. lia.
Qed.

(** C2 (endpoint qualification).  With the stream URL
    [https://host/sse?code=ABC] and no access token configured, the
    endpoint [/messages?sessionId=42] resolves to
    [https://host/messages?sessionId=42]: the query of the stream URL is
    not carried over.  With the access token [XYZ] configured, the
    endpoint [/messages], which carries no credential, resolves to
    [https://host/messages?code=XYZ].  An endpoint that already carries
    [code=] is resolved as it is, the configured token not added again:
    so for [/messages?sessionId=42&code=ABC], and so for every endpoint
    in which [code=] occurs, which resolves as it does with no token. *)
Theorem qualify_endpoint_examples :
  _qualify_endpoint (Client "https://host/sse?code=ABC" None 30 None ∅)
                    (JStr "/messages?sessionId=42")
  = inr "https://host/messages?sessionId=42"
  ∧ _qualify_endpoint (Client "https://host/sse?code=ABC" (Some "XYZ") 30 None ∅)
                      (JStr "/messages")
    = inr "https://host/messages?code=XYZ"
  ∧ _qualify_endpoint (Client "https://host/sse?code=ABC" (Some "ABC") 30 None ∅)
                      (JStr "/messages?sessionId=42&code=ABC")
    = inr "https://host/messages?sessionId=42&code=ABC"
  ∧ (∀ token endpoint,
       PyStr.contains "code=" endpoint = true →
       _qualify_endpoint (Client "https://host/sse?code=ABC" (Some token) 30 None ∅)
                         (JStr endpoint)
       = _qualify_endpoint (Client "https://host/sse?code=ABC" None 30 None ∅)
                           (JStr endpoint)).
Proof.
  split_and!; try reflexivity.
  intros token endpoint Hc. unfold _qualify_endpoint. simpl.
  destruct (PyStr.truthy token); [|done]. by rewrite Hc.
Qed.

Lemma qualify_endpoint_examples_witness :
  _qualify_endpoint (Client "https://host/sse?code=ABC" (Some "XYZ") 30 None ∅)
                    (JStr "/messages?code=XYZ&sessionId=42")
  = inr "https://host/messages?code=XYZ&sessionId=42".
Proof.
  rewrite (proj2 (proj2 (proj2 qualify_endpoint_examples))
             "XYZ" "/messages?code=XYZ&sessionId=42" eq_refl).
  reflexivity.
Defined.

(** The claim C1 as stated fails: for the call that this response
    completes, [_rpc] returns the envelope, which is not its [result]
    field. *)
Lemma rpc_result_field_counterexample :
  (_rpc "tools/list" (Some []) (accepted [tools_response]) connected).1
  = inr tools_envelope
  ∧ PyVal.get "result"
      [("jsonrpc", JStr "2.0"); ("id", JStr "rid-0");
       ("result", JObj [("tools", JArr [JObj [("name", JStr "search")]])])]
    = Some (JObj [("tools", JArr [JObj [("name", JStr "search")]])])
  ∧ (_rpc "tools/list" (Some []) (accepted [tools_response]) connected).1
    ≠ inr (JObj [("tools", JArr [JObj [("name", JStr "search")]])]).
Proof.
  split_and!.
  - vm_compute. reflexivity.
  - reflexivity.
  - vm_compute. discriminate.
Qed.

Lemma tools_response_answers :
  answered "rid-0" tools_response (accepted [tools_response]).
Proof.
  right. split; [constructor|]. exists [], []. split; [reflexivity|constructor].
Defined.

Lemma rpc_returns_envelope_witness :
  (_rpc "tools/list" (Some []) (accepted [tools_response]) connected).1
  = inr tools_envelope
  ∧ (list_tools (accepted [tools_response]) connected).1
    = inr (JArr [JObj [("name", JStr "search")]]).
Proof.
  pose proof (rpc_returns_envelope "tools/list" (Some []) (accepted [tools_response])
                connected "https://host/messages?sessionId=42" 202 EmptyString
                tools_response
                [("jsonrpc", JStr "2.0"); ("id", JStr "rid-0");
                 ("result", JObj [("tools", JArr [JObj [("name", JStr "search")]])])]
                connected_write_url connected_wf eq_refl eq_refl
                tools_response_answers eq_refl eq_refl eq_refl) as [Hrpc Htools].
  split; [exact Hrpc|].
  exact (Htools [("tools", JArr [JObj [("name", JStr "search")]])]
                (JArr [JObj [("name", JStr "search")]]) eq_refl eq_refl).
Defined.



Lemma post_error_leaves_entry_witness :
  (_rpc "tools/call" None (RpcEnv [] (Reply 503 "busy") [] []) connected).1
  = inl (MCPClientError (JStr "HTTP 503: busy"))
  ∧ _pending (self (_rpc "tools/call" None (RpcEnv [] (Reply 503 "busy") [] [])
                      connected).2) !! "rid-0" = Some 0%nat.
Proof.
  pose proof (post_error_leaves_entry "tools/call" None (RpcEnv [] (Reply 503 "busy") [] [])
                connected _ 503 "busy" connected_write_url eq_refl ltac:(lia))
    as (Herr & _ & Hkept).
  split; [exact Herr|]. apply Hkept. constructor.
Defined.

Lemma rpc_requires_endpoint_witness :
  write_url (self disconnected) = None
  ∧ search "Azure Service Bus" (accepted [tools_response]) disconnected
    = (inl (MCPClientError (JStr "Not connected or write endpoint not discovered")),
       disconnected).
Proof.
  split; [reflexivity|].
  exact (proj1 (proj2 (proj2 (proj2 (proj2 (rpc_requires_endpoint disconnected eq_refl)))))
               "Azure Service Bus" (accepted [tools_response])).
Defined.

Lemma malformed_event_ignored_witness :
  _handle_sse_event None ": keep-alive" connected = (inr tt, connected)
  ∧ _handle_sse_event (Some "endpoint") "not json" connected = (inr tt, connected)
  ∧ listen [Sse None (number_and_letter 4301); tools_response] connected = connected.
Proof.
  assert (json_loads (number_and_letter 4301) = inl ValueError) as Hj
    by (vm_compute; reflexivity).
  split_and!.
  - apply (malformed_event_ignored None ": keep-alive" connected);
      [left; discriminate|reflexivity].
  - apply (malformed_event_ignored (Some "endpoint") "not json" connected);
      [|reflexivity].
    right. right. rewrite connected_write_url. discriminate.
  - destruct (malformed_event_ignored None (number_and_letter 4301) connected)
      as [_ Hraise]; [left; discriminate|].
    destruct (Hraise ValueError [tools_response] Hj) as [_ Hdead]; [discriminate|].
    exact Hdead.
Defined.

(** C8 fails on the code at this payload.  The text is not JSON: with a
    number of 4300 digits [json.loads] refuses it with
    [JSONDecodeError], and the handler ignores the event.  With one more
    digit the conversion of the number raises a plain [ValueError]
    first, which [except json.JSONDecodeError] does not catch: the
    handler raises, and the listener ends without dispatching the
    response that follows. *)
Lemma oversized_number_escapes :
  json_loads (number_and_letter 4300) = inl JSONDecodeError
  ∧ _handle_sse_event None (number_and_letter 4300) connected = (inr tt, connected)
  ∧ json_loads (number_and_letter 4301) = inl ValueError
  ∧ _handle_sse_event None (number_and_letter 4301) connected
    = (inl ValueError, connected)
  ∧ listen [Sse None (number_and_letter 4301); tools_response] calling = calling
  ∧ listen [Sse None (number_and_letter 4300); tools_response] calling ≠ calling.
Proof.
  split_and!; try (vm_compute; reflexivity).
  intros Hsame. apply (f_equal (λ w, _pending (self w) !! "rid-0")) in Hsame.
  vm_compute in Hsame. discriminate Hsame.
Qed.

Lemma unknown_id_dropped_witness :
  _pending (self (_handle_sse_event None (data stray_response)
                    (act Issue connected)).2)
  = _pending (self (act Issue connected))
  ∧ heap (_handle_sse_event None (data stray_response) (act Issue connected)).2
    = heap (act Issue connected).
Proof.
  apply (unknown_id_dropped None (data stray_response) (act Issue connected)
           [("id", JStr "rid-7"); ("result", JObj [])] (JStr "rid-7")).
  - vm_compute. reflexivity.
  - reflexivity.
  - intros rid [= <-]. vm_compute. reflexivity.
Defined.

Lemma first_endpoint_wins_witness :
  write_url (self (listen ([endpoint_event]
                           ++ [Sse (Some "endpoint") "/other";
                               Sse None (JsonLite.text "{'endpoint': '/third'}")])
                          disconnected))
  = Some "https://host/messages?sessionId=42".
Proof.
  exact (proj2 (proj2 (proj2 (first_endpoint_wins connected _ connected_write_url)))
               disconnected [endpoint_event] _ eq_refl).
Defined.

Lemma pending_lifecycle_witness :
  _pending (self (run [Dispatch stray_response; Issue] (act Issue connected))) !! "rid-0"
  = Some 0%nat
  ∧ _pending (self (run ([Dispatch stray_response; Issue]
                         ++ Dispatch tools_response :: [Expire "rid-0"])
                        (act Issue connected))) !! "rid-0"
    = None.
Proof.
  pose proof (pending_lifecycle connected _ connected_write_url lite_fresh_ids)
    as (_ & Hkept & Hgone & _ & _).
  split.
  - apply Hkept. repeat constructor.
  - apply Hgone; [repeat constructor|]. vm_compute. reflexivity.
Defined.

Lemma disconnected_wf : wf disconnected.
Proof. intros k r Hk. vm_compute in Hk. discriminate. Qed.

Lemma connect_handshake_witness :
  (∃ w', connect 20 0
           ([Poll [] 5] ++ Poll [Sse None ": ping"] 21 :: [Poll [endpoint_event] 50])
           [] disconnected
         = Some (inl (TimeoutError
                        "Did not receive session write endpoint via SSE handshake"),
                 w'))
  ∧ (∃ w', connect 20 0
             ([Poll [] 5] ++ Poll [Sse None ": ping"] 21 :: [Poll [endpoint_event] 50])
             [Sse None ": ping"; endpoint_event] disconnected
           = Some (inr tt, w')
           ∧ write_url (self w') = Some "https://host/messages?sessionId=42")
  ∧ (∃ w', connect 20 0
             ([Poll [] 5] ++ Poll [Sse None ": ping"; endpoint_event] 10 :: [])
             [] disconnected
           = Some (inr tt, w')
           ∧ write_url (self w') = Some "https://host/messages?sessionId=42").
Proof.
  assert (Forall (λ q, Forall (λ x, announces x = false) (arrived q)) [Poll [] 5])
    as Hquiet by repeat constructor.
  assert (discovers (self disconnected) endpoint_event
            "https://host/messages?sessionId=42") as Hd.
  { left. split_and!; [reflexivity|discriminate|reflexivity]. }
  split_and!.
  - destruct (connect_handshake 20 0 [Poll [] 5] (Poll [Sse None ": ping"] 21)
                [Poll [endpoint_event] 50] [] disconnected
                eq_refl disconnected_wf Hquiet) as [Hover _].
    destruct Hover as [Htimeout _].
    + repeat constructor.
    + simpl. lia.
    + apply Htimeout. constructor.
  - destruct (connect_handshake 20 0 [Poll [] 5] (Poll [Sse None ": ping"] 21)
                [Poll [endpoint_event] 50] [Sse None ": ping"; endpoint_event]
                disconnected eq_refl disconnected_wf Hquiet) as [Hover _].
    destruct Hover as [_ Hlate].
    + repeat constructor.
    + simpl. lia.
    + destruct (Hlate [Sse None ": ping"] endpoint_event []
                  "https://host/messages?sessionId=42")
        as (w' & Hc & Hu & _).
      * reflexivity.
      * repeat constructor.
      * exact Hd.
      * exists w'. split; assumption.
  - destruct (connect_handshake 20 0 [Poll [] 5]
                (Poll [Sse None ": ping"; endpoint_event] 10) [] [] disconnected
                eq_refl disconnected_wf Hquiet) as [_ Hin].
    destruct (Hin (ltac:(repeat constructor)) [Sse None ": ping"] endpoint_event []
                "https://host/messages?sessionId=42")
      as (w' & Hc & Hu & _).
    + reflexivity.
    + repeat constructor.
    + exact Hd.
    + exists w'. split; assumption.
Defined.

(** The claim C5 as stated fails: twenty seconds after [connect] was
    invoked the loop condition finds no endpoint and the loop ends; the
    listener dispatches the announcement before the test that follows,
    and [connect] returns normally, though no endpoint was discovered
    within [handshake_timeout]. *)
Lemma connect_late_endpoint_counterexample :
  connect_wait 0 20 [Poll [] 19; Poll [] 21] disconnected = Some disconnected
  ∧ write_url (self disconnected) = None
  ∧ (20 ≤ now (Poll [] 21) - 0)%Z
  ∧ connect 20 0 [Poll [] 19; Poll [] 21] [endpoint_event] disconnected
    = Some (inr tt, connected)
  ∧ ¬ ∃ x w', connect 20 0 [Poll [] 19; Poll [] 21] [endpoint_event] disconnected
              = Some (inl x, w').
Proof.
  assert (connect 20 0 [Poll [] 19; Poll [] 21] [endpoint_event] disconnected
          = Some (inr tt, connected)) as Hc by (vm_compute; reflexivity).
  split_and!.
  - reflexivity.
  - reflexivity.
  - simpl. lia.
  - exact Hc.
  - intros (x & w' & Hx). rewrite Hc in Hx. discriminate.
Qed.

(** A call that nothing answers times out and leaves the table empty;
    so does a call whose response is dispatched only after its wait has
    ended, and that response is lost. *)
Example run_timeout :
  (_rpc "tools/list" (Some []) (accepted []) connected).1
  = inl (MCPClientError (JStr "Timeout waiting for response to tools/list"))
  ∧ _pending (self (_rpc "tools/list" (Some []) (accepted []) connected).2) = ∅.
Proof. split; vm_compute; reflexivity. Qed.

Example run_late_response :
  (_rpc "tools/list" (Some [])
        (RpcEnv [] (Reply 202 EmptyString) [] [tools_response]) connected).1
  = inl (MCPClientError (JStr "Timeout waiting for response to tools/list")).
Proof. vm_compute. reflexivity. Qed.

(** Two calls in flight, answered in the reverse order: each holder gets
    the response that carries its own id. *)
Example run_two_calls :
  heap (run [Issue; Issue;
             Dispatch (Sse None (JsonLite.text "{'id': 'rid-1', 'result': 'second'}"));
             Dispatch (Sse None (JsonLite.text "{'id': 'rid-0', 'result': 'first'}"))]
            connected)
  = [Holder true (Some (JObj [("id", JStr "rid-0"); ("result", JStr "first")]));
     Holder true (Some (JObj [("id", JStr "rid-1"); ("result", JStr "second")]))].
Proof. vm_compute. reflexivity. Qed.

End Examples.

(** * The rest of the client

    What the listener thread does with the raw stream before an event
    reaches [_handle_sse_event], and further properties of the methods
    modelled above. *)

(** ** The listener loop *)

(** [str.strip()].  A str is taken as the sequence of its code points,
    each below 256; the ones Python counts as whitespace are the ASCII
    whitespace and separators, the next-line control and the no-break
    space. *)
Module PyStrip.

Definition is_space (a : ascii) : bool :=
  let n := nat_of_ascii a in
  ((9 <=? n) && (n <=? 13))%nat || ((28 <=? n) && (n <=? 32))%nat
  || (n =? 133)%nat || (n =? 160)%nat.

Fixpoint lstrip (s : string) : string :=
  match s with
  | EmptyString => EmptyString
  | String a s' => if is_space a then lstrip s' else s
  end.

Fixpoint rstrip (s : string) : string :=
  match s with
  | EmptyString => EmptyString
  | String a s' =>
      match rstrip s' with
      | EmptyString => if is_space a then EmptyString else String a EmptyString
      | String b t => String a (String b t)
      end
  end.

Definition strip (s : string) : string := lstrip (rstrip s).

(** The text ["\n"]. *)
Definition newline : string := String (ascii_of_nat 10) EmptyString.

End PyStrip.

(** One turn of [for raw in r.iter_lines(...)]: whether [self._stop] is
    set when the turn starts, and the line read. *)
Record read := Read {
  stop_seen : bool;
  raw : option string;
}.

(** The events that the lines of a stream make up: [event] is the name
    in force and [buf] the data lines gathered so far.  A blank line ends
    an event, which exists only if it has data; a line that is neither
    an [event:] nor a [data:] field counts for nothing; what follows a
    turn at which the stop flag is set is not read. *)
Fixpoint frames (reads : list read) (event : option string) (buf : list string)
    : list sse_event :=
  match reads with
  | [] => []
  | r :: rest =>
      if stop_seen r then []
      else
        match raw r with
        | None => frames rest event buf
        | Some raw =>
            let line := PyStrip.strip raw in
            if negb (PyStr.truthy line) then
              match buf with
              | [] => frames rest None []
              | _ :: _ => Sse event (PyStr.join PyStrip.newline buf) :: frames rest None []
              end
            else if PyStr.startswith "event:" line then
              frames rest (Some (PyStrip.strip (PyStr.drop 6 line))) buf
            else if PyStr.startswith "data:" line then
              frames rest event (buf ++ [PyStrip.strip (PyStr.drop 5 line)])%list
            else frames rest event buf
        end
  end.

Section Stream.
Context {L : PyLib}.

(** The loop of [_listen], from [event, buf = None, []] on. *)
Fixpoint _listen_loop (reads : list read) (event : option string)
    (buf : list string) : M unit :=
  match reads with
  | [] => ret tt
  | r :: rest =>
      if stop_seen r then ret tt
      else
        match raw r with
        | None => _listen_loop rest event buf
        | Some raw =>
            let line := PyStrip.strip raw in
            if negb (PyStr.truthy line) then
              exec (match buf with
                    | [] => ret tt
                    | _ :: _ =>
                        _handle_sse_event event (PyStr.join PyStrip.newline buf)
                    end);
              _listen_loop rest None []
            else if PyStr.startswith "event:" line then
              _listen_loop rest (Some (PyStrip.strip (PyStr.drop 6 line))) buf
            else if PyStr.startswith "data:" line then
              _listen_loop rest event (buf ++ [PyStrip.strip (PyStr.drop 5 line)])%list
            else _listen_loop rest event buf
        end
  end.

(** [_listen]: [status] is the status of the GET, which
    [r.raise_for_status()] refuses from 400 to 599. *)
Definition _listen (status : Z) (reads : list read) : M unit :=
  if (400 <=? status)%Z && (status <? 600)%Z
  then raise (RequestException "HTTPError")
  else _listen_loop reads None [].

End Stream.

(** ** An invariant of the pending table *)

(** Every entry of the table leads to a holder that exists, that no
    other entry leads to, and that has not been signalled. *)
Definition tidy (w : world) : Prop :=
  ∀ k r, _pending (self w) !! k = Some r →
    heap w !! r = Some (Holder false None)
    ∧ ∀ k', _pending (self w) !! k' = Some r → k' = k.

(** A turn that reads a blank line, and a turn whose line is neither
    blank nor a field the loop knows. *)
Definition is_blank (r : read) : bool :=
  negb (stop_seen r)
  && match raw r with
     | None => false
     | Some s => negb (PyStr.truthy (PyStrip.strip s))
     end.

Definition is_ignored (r : read) : bool :=
  negb (stop_seen r)
  && match raw r with
     | None => true
     | Some s =>
         let line := PyStrip.strip s in
         PyStr.truthy line && negb (PyStr.startswith "event:" line)
         && negb (PyStr.startswith "data:" line)
     end.

Definition is_data (r : read) : bool :=
  negb (stop_seen r)
  && match raw r with
     | None => false
     | Some s => PyStr.startswith "data:" (PyStrip.strip s)
     end.

(** The payload of a [data:] line: [line[5:].strip()] of the stripped
    line. *)
Definition data_payload (r : read) : string :=
  PyStrip.strip (PyStr.drop 5 (PyStrip.strip (default EmptyString (raw r)))).

(** * Properties of the listener loop *)

Section StreamProperties.
Context {L : PyLib}.

Ltac unfold_monad :=
  unfold bind, get_self, lift, modify, ret, raise, background in *.

Ltac step_loop := cbn [_listen_loop frames app map].

(** At a blank line: the buffer is empty, or the handler runs and either
    raises or returns. *)
Ltac at_blank buf :=
  destruct buf as [|? ?]; unfold_monad;
  [|match goal with
    | |- context [_handle_sse_event ?e ?d ?w] =>
        destruct (_handle_sse_event e d w) as [[?|[]] ?]
    end].

Lemma listen_loop_frames reads event buf w :
  (_listen_loop reads event buf w).2 = listen (frames reads event buf) w.
Proof.
  revert event buf w. induction reads as [|r reads IH]; intros event buf w; [done|].
  step_loop. destruct (stop_seen r); [done|].
  destruct (raw r) as [s|]; [|by apply IH].
  destruct (negb (PyStr.truthy (PyStrip.strip s))).
  - destruct buf as [|b buf]; unfold_monad; [by apply IH|].
    cbn [listen name data].
    destruct (_handle_sse_event event (PyStr.join PyStrip.newline (b :: buf)) w)
      as [[x|[]] w']; [done|by apply IH].
  - destruct (PyStr.startswith "event:" (PyStrip.strip s)); [by apply IH|].
    destruct (PyStr.startswith "data:" (PyStrip.strip s)); by apply IH.
Qed.

(** X1 (the loop dispatches the framed events).  Whatever the stream,
    the state the listener thread leaves is the state left by dispatching,
    in order, the events its lines frame, up to the first one whose
    handler raises; a GET refused with a status from 400 to 599
    dispatches nothing. *)
Theorem listener_dispatches_frames status reads w :
  (_listen status reads w).2
  = if (400 <=? status)%Z && (status <? 600)%Z then w
    else listen (frames reads None []) w.
Proof.
  unfold _listen. destruct ((400 <=? status)%Z && (status <? 600)%Z); [done|].
  apply listen_loop_frames.
Qed.

Lemma listen_loop_skip pre r post event buf w :
  is_ignored r = true →
  _listen_loop (pre ++ r :: post) event buf w = _listen_loop (pre ++ post) event buf w.
Proof.
  intros Hr. revert event buf w.
  induction pre as [|x pre IH]; intros event buf w; step_loop.
  - unfold is_ignored in Hr. destruct (stop_seen r); [done|].
    destruct (raw r) as [s|]; [|done]. cbn [negb andb] in Hr.
    apply andb_true_iff in Hr as [Hr Hd]. apply andb_true_iff in Hr as [Ht He].
    apply negb_true_iff in He, Hd. by rewrite Ht, He, Hd.
  - destruct (stop_seen x); [done|].
    destruct (raw x) as [s|]; [|by apply IH].
    destruct (negb (PyStr.truthy (PyStrip.strip s))).
    + at_blank buf; [by apply IH|done|by apply IH].
    + destruct (PyStr.startswith "event:" (PyStrip.strip s)); [by apply IH|].
      destruct (PyStr.startswith "data:" (PyStrip.strip s)); by apply IH.
Qed.

(** X2 (unknown lines count for nothing).  A line that is neither blank
    nor an [event:] or [data:] field, a comment or an [id:] or [retry:]
    field for instance, can be taken out of the stream without changing
    what the loop does: the same events are dispatched, with the same
    outcome. *)
Theorem unknown_lines_ignored pre r post event buf w :
  is_ignored r = true →
  _listen_loop (pre ++ r :: post) event buf w = _listen_loop (pre ++ post) event buf w.
Proof. apply listen_loop_skip. Qed.

Lemma listen_loop_app r1 b r2 event buf w :
  Forall (λ r, stop_seen r = false) r1 →
  is_blank b = true →
  _listen_loop (r1 ++ b :: r2) event buf w
  = (exec _listen_loop (r1 ++ [b]) event buf; _listen_loop r2 None []) w.
Proof.
  intros Hr1 Hb. revert event buf w.
  induction r1 as [|x r1 IH]; intros event buf w; step_loop.
  - unfold is_blank in Hb. destruct (stop_seen b); [done|].
    destruct (raw b) as [s|]; [|done]. cbn [negb andb] in Hb. rewrite Hb.
    at_blank buf; done.
  - apply Forall_cons in Hr1 as [Hx Hr1]. rewrite Hx.
    specialize (IH Hr1).
    destruct (raw x) as [s|]; [|by apply IH].
    destruct (negb (PyStr.truthy (PyStrip.strip s))).
    + at_blank buf; [apply IH|done|apply IH].
    + destruct (PyStr.startswith "event:" (PyStrip.strip s)); [by apply IH|].
      destruct (PyStr.startswith "data:" (PyStrip.strip s)); by apply IH.
Qed.

(** X3 (a blank line starts afresh).  Reading a stream up to a blank
    line and then reading the rest with no event name and an empty buffer
    is the same as reading it in one go: the name given by an [event:]
    line and the data gathered never pass a blank line, and when the
    handler raises at the blank line the rest is not read. *)
Theorem blank_line_resets r1 b r2 event buf w :
  Forall (λ r, stop_seen r = false) r1 →
  is_blank b = true →
  _listen_loop (r1 ++ b :: r2) event buf w
  = (exec _listen_loop (r1 ++ [b]) event buf; _listen_loop r2 None []) w.
Proof. apply listen_loop_app. Qed.

Lemma listen_loop_unterminated reads event buf w :
  Forall (λ r, is_blank r = false) reads →
  _listen_loop reads event buf w = (inr tt, w).
Proof.
  revert event buf. induction reads as [|r reads IH]; intros event buf Hall; [done|].
  apply Forall_cons in Hall as [Hr Hall]. step_loop.
  unfold is_blank in Hr. destruct (stop_seen r); [done|].
  destruct (raw r) as [s|]; [|by apply IH]. cbn [negb andb] in Hr. rewrite Hr.
  destruct (PyStr.startswith "event:" (PyStrip.strip s)); [by apply IH|].
  destruct (PyStr.startswith "data:" (PyStrip.strip s)); by apply IH.
Qed.

(** X4 (an event needs its blank line).  As long as no blank line is
    read, nothing is dispatched, whatever [event:] and [data:] lines have
    arrived: the data of a stream that ends without a blank line is
    never handed to the handler. *)
Theorem unterminated_event_dropped reads event buf w :
  Forall (λ r, is_blank r = false) reads →
  _listen_loop reads event buf w = (inr tt, w).
Proof. apply listen_loop_unterminated. Qed.

Lemma listen_loop_stop pre r post event buf w :
  stop_seen r = true →
  _listen_loop (pre ++ r :: post) event buf w = _listen_loop pre event buf w.
Proof.
  intros Hr. revert event buf w.
  induction pre as [|x pre IH]; intros event buf w; step_loop; [by rewrite Hr|].
  destruct (stop_seen x); [done|].
  destruct (raw x) as [s|]; [|by apply IH].
  destruct (negb (PyStr.truthy (PyStrip.strip s))).
  - at_blank buf; [by apply IH|done|by apply IH].
  - destruct (PyStr.startswith "event:" (PyStrip.strip s)); [by apply IH|].
    destruct (PyStr.startswith "data:" (PyStrip.strip s)); by apply IH.
Qed.

(** X5 (the stop flag ends the loop).  From the first turn at which
    [self._stop] is set, nothing is read any more: the line of that turn
    and all later ones have no effect, and the data gathered so far is
    not dispatched. *)
Theorem stop_flag_ends_loop pre r post event buf w :
  stop_seen r = true →
  _listen_loop (pre ++ r :: post) event buf w = _listen_loop pre event buf w.
Proof. apply listen_loop_stop. Qed.

Lemma data_line_facts s :
  PyStr.startswith "data:" s = true →
  PyStr.truthy s = true ∧ PyStr.startswith "event:" s = false.
Proof.
  destruct s as [|a s]; [done|]. simpl. intros Hs.
  apply andb_true_iff in Hs as [Ha%bool_decide_eq_true _]. subst a. done.
Qed.

Lemma listen_loop_data ds b event buf w :
  Forall (λ r, is_data r = true) ds →
  is_blank b = true →
  (buf ++ map data_payload ds)%list ≠ [] →
  _listen_loop (ds ++ [b]) event buf w
  = _handle_sse_event event
      (PyStr.join PyStrip.newline (buf ++ map data_payload ds)) w.
Proof.
  intros Hds Hb. revert buf.
  induction ds as [|d ds IH]; intros buf Hne; step_loop.
  - rewrite app_nil_r in *. unfold is_blank in Hb.
    destruct (stop_seen b); [done|].
    destruct (raw b) as [s|]; [|done]. cbn [negb andb] in Hb. rewrite Hb.
    destruct buf as [|x buf]; [done|]. unfold_monad.
    destruct (_handle_sse_event event (PyStr.join PyStrip.newline (x :: buf)) w)
      as [[e|[]] w']; done.
  - apply Forall_cons in Hds as [Hd Hds].
    unfold is_data in Hd. unfold data_payload at 1.
    destruct (stop_seen d); [done|].
    destruct (raw d) as [s|]; [|done]. cbn [negb andb default] in *.
    destruct (data_line_facts _ Hd) as [Ht He]. rewrite Ht, He, Hd. cbn [negb].
    rewrite IH.
    + by rewrite <- app_assoc.
    + done.
    + rewrite <- app_assoc. simpl. by destruct buf.
Qed.

(** X6 (data lines are joined in order).  An event made of [data:]
    lines only, ended by a blank line, is dispatched once, under the name
    in force, with the payloads of its lines in the order of arrival and
    a newline between them; the outcome of the loop is the outcome of
    that one dispatch. *)
Theorem data_lines_joined d ds b event w :
  Forall (λ r, is_data r = true) (d :: ds) →
  is_blank b = true →
  _listen_loop (d :: ds ++ [b]) event [] w
  = _handle_sse_event event
      (PyStr.join PyStrip.newline (map data_payload (d :: ds))) w.
Proof.
  intros Hds Hb. by apply (listen_loop_data (d :: ds) b event []).
Qed.

End StreamProperties.

(** * Further properties of the methods *)

Section MoreProperties.
Context {L : PyLib}.

Implicit Types (w : world) (e : sse_event) (rid : string) (ref : nat).

Ltac unfold_monad :=
  unfold bind, get_self, lift, modify, ret, raise, background in *.

Ltac dispatch_cases event data w :=
  let Hc := fresh "Hc" in
  let E := fresh "E" in
  pose proof (handle_cases event data w) as Hc;
  destruct (_handle_sse_event event data w) as [? ?] eqn:E;
  inversion Hc; subst; clear Hc; simpl in *.

(** ** Calls in flight together *)

Lemma issue_wf w : wf w → wf (rpc_issue w).2.
Proof.
  intros Hwf k r Hk. simpl in *. rewrite length_app. simpl.
  destruct (decide (k = uuid4 (drawn w))) as [->|Hne].
  - rewrite lookup_insert_eq in Hk. injection Hk as <-. lia.
  - rewrite lookup_insert_ne in Hk by done. apply Hwf in Hk. simpl in Hk. lia.
Qed.

Lemma issue_keeps_pend rid ref w :
  pend rid ref w → uuid4 (drawn w) ≠ rid → pend rid ref (rpc_issue w).2.
Proof.
  intros (Hu & Hp & Huniq & Hh) Hne. unfold pend. simpl.
  assert (ref < length (heap w))%nat as Hlt by (by eapply lookup_lt_Some).
  split_and!; [done| | |].
  - by rewrite lookup_insert_ne.
  - intros k Hk. destruct (decide (k = uuid4 (drawn w))) as [->|Hk'].
    + rewrite lookup_insert_eq in Hk. injection Hk as Hk. lia.
    + rewrite lookup_insert_ne in Hk by done. by apply Huniq.
  - by rewrite lookup_app_l.
Qed.

(** X7 (no cross-talk between calls).  Two calls are issued one after
    the other and draw different ids; their responses are dispatched in
    either order.  Each holder ends up signalled with the response that
    carries its own call's id, and both entries are gone from the
    table. *)
Theorem concurrent_calls w url e1 e2 d1 d2 tr :
  write_url (self w) = Some url → wf w →
  uuid4 (drawn w) ≠ uuid4 (S (drawn w)) →
  json_loads (data e1) = inr (JObj d1) →
  PyVal.get "id" d1 = Some (JStr (uuid4 (drawn w))) →
  json_loads (data e2) = inr (JObj d2) →
  PyVal.get "id" d2 = Some (JStr (uuid4 (S (drawn w)))) →
  tr = [Dispatch e1; Dispatch e2] ∨ tr = [Dispatch e2; Dispatch e1] →
  heap (run ([Issue; Issue] ++ tr) w) !! length (heap w)
  = Some (Holder true (Some (JObj d1)))
  ∧ heap (run ([Issue; Issue] ++ tr) w) !! S (length (heap w))
    = Some (Holder true (Some (JObj d2)))
  ∧ _pending (self (run ([Issue; Issue] ++ tr) w)) !! uuid4 (drawn w) = None
  ∧ _pending (self (run ([Issue; Issue] ++ tr) w)) !! uuid4 (S (drawn w)) = None.
Proof.
  intros Hu Hwf Hne Hj1 Hid1 Hj2 Hid2 Htr.
  assert (write_url (self w) ≠ None) as Hu' by congruence.
  set (rid1 := uuid4 (drawn w)) in *. set (rid2 := uuid4 (S (drawn w))) in *.
  set (w1 := (rpc_issue w).2).
  assert (pend rid1 (length (heap w)) w1) as Hp1 by (by apply issue_pend).
  assert (wf w1) as Hwf1 by (by apply issue_wf).
  assert (drawn w1 = S (drawn w)) as Hd1 by done.
  assert (length (heap w1) = S (length (heap w))) as Hl1.
  { unfold w1. simpl. rewrite length_app. simpl. lia. }
  assert (write_url (self w1) ≠ None) as Hu1 by done.
  set (w2 := (rpc_issue w1).2).
  assert (pend rid2 (S (length (heap w))) w2) as Hp22.
  { pose proof (issue_pend w1 Hwf1 Hu1) as Hp. rewrite Hd1, Hl1 in Hp. exact Hp. }
  assert (pend rid1 (length (heap w)) w2) as Hp12.
  { apply issue_keeps_pend; [done|]. rewrite Hd1. by apply not_eq_sym. }
  assert (run ([Issue; Issue] ++ tr) w = run tr w2) as ->.
  { rewrite run_app. f_equal. unfold run. cbn [foldl act]. rewrite Hu. fold w1.
    destruct (write_url (self w1)) eqn:Hx; [done|]. by destruct Hu1. }
  assert (correlates rid1 e2 = false) as Hc12.
  { unfold correlates. rewrite Hj2, Hid2. by apply bool_decide_eq_false, not_eq_sym. }
  assert (correlates rid2 e1 = false) as Hc21.
  { unfold correlates. rewrite Hj1, Hid1. by apply bool_decide_eq_false. }
  destruct Htr as [-> | ->]; unfold run; simpl.
  - destruct (pend_resolve rid1 _ e1 d1 w2 Hp12 Hj1 Hid1) as [_ Hr1].
    pose proof (pend_step rid2 _ e1 w2 Hp22 Hc21) as Hp2.
    destruct (pend_resolve rid2 _ e2 d2 _ Hp2 Hj2 Hid2) as [_ Hr2].
    pose proof (res_step rid1 _ d1 (name e2) (data e2) _ Hr1) as Hr1'.
    destruct Hr1' as (? & _ & ?), Hr2 as (? & _ & ?). done.
  - destruct (pend_resolve rid2 _ e2 d2 w2 Hp22 Hj2 Hid2) as [_ Hr2].
    pose proof (pend_step rid1 _ e2 w2 Hp12 Hc12) as Hp1'.
    destruct (pend_resolve rid1 _ e1 d1 _ Hp1' Hj1 Hid1) as [_ Hr1].
    pose proof (res_step rid2 _ d2 (name e1) (data e1) _ Hr2) as Hr2'.
    destruct Hr2' as (? & _ & ?), Hr1 as (? & _ & ?). done.
Qed.

Lemma resolved_deaf rid ref d e w :
  write_url (self w) ≠ None → res rid ref d w → correlates rid e = true →
  (_handle_sse_event (name e) (data e) w).2 = w.
Proof.
  intros Hu (Hgone & _) Hc. apply correlates_elim in Hc as (d' & Hj & Hid).
  dispatch_cases (name e) (data e) w; try done.
  match goal with
  | Hp : _pending (self w) !! ?r = Some _ |- _ =>
      assert (r = rid) as -> by congruence; congruence
  end.
Qed.

(** X8 (a repeated response changes nothing).  Once the response of a
    call has been dispatched, its holder has that response; an event
    that carries the same id afterwards, whatever its payload, leaves the
    whole state as it is: the holder keeps the first response. *)
Theorem duplicate_response_dropped w url e e' d :
  write_url (self w) = Some url → wf w →
  json_loads (data e) = inr (JObj d) →
  PyVal.get "id" d = Some (JStr (uuid4 (drawn w))) →
  correlates (uuid4 (drawn w)) e' = true →
  heap (run [Issue; Dispatch e] w) !! length (heap w)
  = Some (Holder true (Some (JObj d)))
  ∧ run [Issue; Dispatch e; Dispatch e'] w = run [Issue; Dispatch e] w.
Proof.
  intros Hu Hwf Hj Hid Hc.
  assert (write_url (self w) ≠ None) as Hu' by congruence.
  pose proof (issue_pend w Hwf Hu') as Hp.
  destruct (pend_resolve _ _ e d _ Hp Hj Hid) as [_ Hr].
  unfold run. simpl. rewrite Hu. split; [by destruct Hr as (_ & _ & ?)|].
  eapply resolved_deaf; [|exact Hr|exact Hc].
  rewrite (handle_write_url_fixed (name e) (data e) _ url); done.
Qed.

(** X9 (an id that is a list or a dict kills the listener).  With an
    endpoint known and a table that is not empty, a JSON object whose
    [id] is an array or an object makes the handler raise [TypeError]
    before anything is written; the thread ends there, and no event after
    it is dispatched.  With an empty table the same event does nothing:
    the handler returns and the listener goes on. *)
Theorem unhashable_id_kills_listener w u event text d key evs :
  write_url (self w) = Some u →
  json_loads text = inr (JObj d) →
  PyVal.get "id" d = Some key →
  match key with JArr _ | JObj _ => True | _ => False end →
  (_pending (self w) ≠ ∅ →
   _handle_sse_event event text w = (inl TypeError, w)
   ∧ listen (Sse event text :: evs) w = w)
  ∧ (_pending (self w) = ∅ →
     _handle_sse_event event text w = (inr tt, w)
     ∧ listen (Sse event text :: evs) w = listen evs w).
Proof.
  intros Hu Hj Hid Hkey.
  assert (_handle_sse_event event text w
          = if bool_decide (_pending (self w) = ∅) then (inr tt, w)
            else (inl TypeError, w)) as Hh.
  { unfold _handle_sse_event. unfold_monad. rewrite Hu.
    rewrite (bool_decide_eq_false_2 (Some u = None)) by done. rewrite andb_false_r.
    rewrite Hj, Hid.
    destruct (PyVal.get "endpoint" d), key; try done; simpl;
      by destruct (bool_decide (_pending (self w) = ∅)). }
  split; intros He; cbn [listen name data]; rewrite Hh.
  - by rewrite (bool_decide_eq_false_2 _ He).
  - by rewrite (bool_decide_eq_true_2 _ He).
Qed.

(** ** What a call sends *)




(** ** The base of the write URL *)

Lemma split_head_cons sep a s :
  PyStr.split_head sep (String a s)
  = if PyStr.startswith sep (String a s) then EmptyString
    else String a (PyStr.split_head sep s).
Proof. done. Qed.

Lemma contains_cons needle a s :
  PyStr.contains needle (String a s)
  = PyStr.startswith needle (String a s) || PyStr.contains needle s.
Proof. done. Qed.

Lemma startswith_sse_app a p r :
  PyStr.startswith "/sse" (String a p) = false →
  PyStr.startswith "/sse" (String a (p +:+ "/sse" +:+ r)) = false.
Proof.
  destruct p as [|b [|c [|d p]]]; simpl; intros H;
    repeat (case_bool_decide; simplify_eq; simpl in *; try done).
Qed.

Lemma split_head_sse p r :
  PyStr.contains "/sse" p = false →
  PyStr.split_head "/sse" (p +:+ "/sse" +:+ r) = p.
Proof.
  induction p as [|a p IH]; [done|].
  rewrite contains_cons. intros [Hs Hc]%orb_false_elim.
  change (String a p +:+ "/sse" +:+ r) with (String a (p +:+ "/sse" +:+ r)).
  rewrite split_head_cons, (startswith_sse_app a p r Hs). by rewrite IH.
Qed.

Lemma split_head_absent sep s :
  PyStr.contains sep s = false → PyStr.split_head sep s = s.
Proof.
  induction s as [|a s IH].
  - simpl. intros [Hs _]%orb_false_elim. by rewrite Hs.
  - rewrite contains_cons. intros [Hs Hc]%orb_false_elim.
    rewrite split_head_cons, Hs. by rewrite IH.
Qed.

(** X11 (what of the stream URL reaches the write URL).  Of the stream
    URL only the text before its first [/sse] enters the write URL: two
    clients with the same function key whose stream URLs agree up to the
    first [/sse] qualify every endpoint alike, whatever follows it, a
    query string with a code included.  A stream URL without [/sse] is
    the base as a whole. *)
Theorem stream_url_tail_ignored c c' p r r' :
  PyStr.contains "/sse" p = false →
  base_sse_url c = p +:+ "/sse" +:+ r →
  base_sse_url c' = p +:+ "/sse" +:+ r' →
  function_key c = function_key c' →
  (∀ v, _qualify_endpoint c v = _qualify_endpoint c' v)
  ∧ (∀ v, function_key c = None →
          _qualify_endpoint c v = py_urljoin (p +:+ "/") v)
  ∧ PyStr.split_head "/sse" p = p.
Proof.
  intros Hp Hb Hb' Hk. split_and!.
  - intros v. unfold _qualify_endpoint.
    by rewrite Hb, Hb', Hk, !split_head_sse.
  - intros v Hn. unfold _qualify_endpoint.
    by rewrite Hb, Hn, split_head_sse.
  - by apply split_head_absent.
Qed.

(** ** The wrappers around a call *)

Lemma rpc_answered method params env w url st text e d :
  write_url (self w) = Some url → wf w →
  reply env = Reply st text → (st < 400)%Z →
  answered (uuid4 (drawn w)) e env →
  json_loads (data e) = inr (JObj d) →
  PyVal.get "id" d = Some (JStr (uuid4 (drawn w))) →
  PyVal.get "error" d = None →
  _rpc method params env w
  = (inr (JObj d), listen (in_wait env) (at_post method params env w)).
Proof.
  intros Hu Hwf Hre Hst Hans Hj Hid Herr.
  assert (write_url (self w) ≠ None) as Hu' by congruence.
  rewrite (rpc_result_res _ _ _ _ _ _ _ d Hu Hre Hst) by (by eapply answered_res).
  by rewrite Herr.
Qed.

(** What a wrapper makes of the response object [d] for the field
    [field] of its [result]. *)
Definition result_field (field : string) (d : list (string * json)) : exn + json :=
  match PyVal.get "result" d with
  | None => inr (JArr [])
  | Some (JObj r) => inr (default (JArr []) (PyVal.get field r))
  | Some _ => inl AttributeError
  end.

(** X12 (what the wrappers make of a response).  For a call whose
    response reaches it without an [error] field: [list_tools] and
    [call_tool] yield the [tools] and [content] field of the [result]
    object, the empty list when the response has no [result] or the
    [result] has no such field, and raise [AttributeError] when [result]
    is there and is no object, [null] included; [search] and
    [search_by_doc_id] scan what [call_tool] yields. *)
Theorem wrappers_extract env w url st text e d :
  write_url (self w) = Some url → wf w →
  reply env = Reply st text → (st < 400)%Z →
  answered (uuid4 (drawn w)) e env →
  json_loads (data e) = inr (JObj d) →
  PyVal.get "id" d = Some (JStr (uuid4 (drawn w))) →
  PyVal.get "error" d = None →
  (list_tools env w).1 = result_field "tools" d
  ∧ (∀ tool args, (call_tool tool args env w).1 = result_field "content" d)
  ∧ (∀ query, (search query env w).1
              = match result_field "content" d with
                | inr content => scan_content content
                | inl x => inl x
                end)
  ∧ (∀ doc_id, (search_by_doc_id doc_id env w).1
               = match result_field "content" d with
                 | inr content => scan_content content
                 | inl x => inl x
                 end).
Proof.
  intros Hu Hwf Hre Hst Hans Hj Hid Herr.
  split_and!; intros;
    unfold search, search_by_doc_id, list_tools, call_tool, result_field;
    unfold_monad;
    rewrite (rpc_answered _ _ _ _ _ _ _ _ d Hu Hwf Hre Hst Hans Hj Hid Herr);
    simpl; destruct (PyVal.get "result" d) as [[]|]; done.
Qed.

(** A content block that the scan passes over: a dict whose [type] is
    not ["json"]. *)
Definition passed_over (block : json) : bool :=
  match block with
  | JObj d =>
      match PyVal.get "type" d with
      | Some (JStr t) => negb (bool_decide (t = "json"))
      | _ => true
      end
  | _ => false
  end.

Lemma first_json_block_app pre rest content :
  Forall (λ b, passed_over b = true) pre →
  first_json_block (pre ++ rest) content = first_json_block rest content.
Proof.
  induction 1 as [|b pre Hb _ IH]; [done|].
  destruct b as [| | | | | |d]; try done. simpl in *.
  destruct (PyVal.get "type" d) as [[| | | |t| |]|]; try done.
  by apply negb_true_iff in Hb as ->.
Qed.

(** X13 (the scan of the content blocks).  In a list of content blocks
    the first dict whose [type] is ["json"] decides: the scan yields its
    [data], [None] when it has none, whatever follows it.  Without such a
    block the scan yields the content as it is.  A block that is no dict,
    met before any such block, makes the scan raise [AttributeError]. *)
Theorem first_json_block_wins pre :
  Forall (λ b, passed_over b = true) pre →
  (∀ d post, PyVal.get "type" d = Some (JStr "json") →
             scan_content (JArr (pre ++ JObj d :: post))
             = inr (default JNull (PyVal.get "data" d)))
  ∧ scan_content (JArr pre) = inr (JArr pre)
  ∧ (∀ b post, match b with JObj _ => False | _ => True end →
               scan_content (JArr (pre ++ b :: post)) = inl AttributeError).
Proof.
  intros Hpre. split_and!.
  - intros d post Ht. simpl. rewrite first_json_block_app by done.
    simpl. rewrite Ht. by rewrite bool_decide_eq_true_2.
  - simpl. rewrite <- (app_nil_r pre) at 1. by rewrite first_json_block_app.
  - intros b post Hb. simpl. rewrite first_json_block_app by done.
    by destruct b.
Qed.

(** ** The end of the handshake *)

Lemma connect_wait_cut start hs before p after w :
  (hs ≤ now p - start)%Z →
  connect_wait start hs (before ++ p :: after) w
  = connect_wait start hs (before ++ [p]) w
  ∧ is_Some (connect_wait start hs (before ++ [p]) w).
Proof.
  intros Hp. revert w. induction before as [|q before IH]; intros w; simpl.
  - destruct (Z.ltb_spec (now p - start) hs); [lia|].
    rewrite andb_false_r. eauto.
  - destruct (bool_decide _ && _); [apply IH|eauto].
Qed.

(** X14 (the handshake ends with the clock).  Once the clock read at an
    evaluation of the loop condition has passed [handshake_timeout], the
    loop is over: [connect] completes, and what would have come after
    that evaluation plays no part.  It returns normally exactly when an
    endpoint is recorded by the time of its last test, and raises
    [TimeoutError] otherwise. *)
Theorem connect_bounded hs start before p after late w :
  (hs ≤ now p - start)%Z →
  connect hs start (before ++ p :: after) late w
  = connect hs start (before ++ [p]) late w
  ∧ ∃ r w', connect hs start (before ++ p :: after) late w = Some (r, w')
            ∧ (r = inr tt ∧ write_url (self w') ≠ None
               ∨ r = inl (TimeoutError
                            "Did not receive session write endpoint via SSE handshake")
                 ∧ write_url (self w') = None).
Proof.
  intros Hp. destruct (connect_wait_cut start hs before p after w Hp) as [Hcut [w1 Hw1]].
  unfold connect. rewrite Hcut, Hw1. split; [done|].
  destruct (write_url (self (listen late w1))) eqn:Hu.
  - eexists _, _. split; [done|]. left. split; [done|]. by rewrite Hu.
  - eexists _, _. split; [done|]. by right.
Qed.

(** ** The holders in the table *)

Lemma tidy_wf w : tidy w → wf w.
Proof.
  intros Ht k r Hk. simpl. destruct (Ht k r Hk) as [Hh _].
  by eapply lookup_lt_Some.
Qed.

Lemma init_tidy b k t : tidy (MCPClient_init b k t).
Proof. intros x r Hx. simpl in Hx. by rewrite lookup_empty in Hx. Qed.

Lemma handle_tidy event data w : tidy w → tidy (_handle_sse_event event data w).2.
Proof.
  intros Ht. dispatch_cases event data w; try exact Ht.
  intros k r Hk. simpl in *. apply lookup_delete_Some in Hk as [Hne Hk].
  destruct (Ht k r Hk) as [Hh Huniq].
  match goal with
  | Hq : _pending (self w) !! ?x = Some ?n |- _ =>
      assert (n ≠ r) as Hnr by (intros ->; by apply Hne, Huniq)
  end.
  split.
  - by rewrite list_lookup_insert_ne.
  - intros k' Hk'. apply lookup_delete_Some in Hk' as [_ Hk']. by apply Huniq.
Qed.

Lemma listen_tidy evs w : tidy w → tidy (listen evs w).
Proof. apply (listen_invariant tidy). intros. by apply handle_tidy. Qed.

Lemma issue_tidy w : tidy w → tidy (rpc_issue w).2.
Proof.
  intros Ht k r Hk. simpl in *.
  assert (∀ k0, _pending (self w) !! k0 ≠ Some (length (heap w))) as Hfresh.
  { intros k0 Hk0. destruct (Ht k0 _ Hk0) as [Hh _].
    apply lookup_lt_Some in Hh. lia. }
  destruct (decide (k = uuid4 (drawn w))) as [->|Hne].
  - rewrite lookup_insert_eq in Hk. injection Hk as <-. split.
    + rewrite lookup_app_r by done. by rewrite Nat.sub_diag.
    + intros k' Hk'. destruct (decide (k' = uuid4 (drawn w))) as [|Hne']; [done|].
      rewrite lookup_insert_ne in Hk' by done. by destruct (Hfresh k').
  - rewrite lookup_insert_ne in Hk by done. destruct (Ht k r Hk) as [Hh Huniq].
    split.
    + rewrite lookup_app_l; [done|]. by eapply lookup_lt_Some.
    + intros k' Hk'. destruct (decide (k' = uuid4 (drawn w))) as [->|Hne'].
      * rewrite lookup_insert_eq in Hk'. injection Hk' as <-. by destruct (Hfresh k).
      * rewrite lookup_insert_ne in Hk' by done. by apply Huniq.
Qed.

Lemma pop_tidy key w : tidy w → tidy (pending_pop key w).2.
Proof.
  intros Ht. destruct key as [| | | |rid| |]; try done; simpl;
    try (by destruct (bool_decide (_pending (self w) = ∅))).
  destruct (_pending (self w) !! rid) eqn:Hp; [|done].
  intros k r Hk. simpl in *. apply lookup_delete_Some in Hk as [_ Hk].
  destruct (Ht k r Hk) as [Hh Huniq]. split; [done|].
  intros k' Hk'. apply lookup_delete_Some in Hk' as [_ Hk']. by apply Huniq.
Qed.

Lemma act_tidy a w : tidy w → tidy (act a w).
Proof.
  intros Ht. destruct a as [e| |rid]; simpl.
  - by apply handle_tidy.
  - destruct (write_url (self w)); [by apply issue_tidy|done].
  - by apply (pop_tidy (JStr rid)).
Qed.

Lemma at_post_tidy method params env w : tidy w → tidy (at_post method params env w).
Proof.
  intros Ht. unfold at_post, session_post.
  destruct (reply env); simpl; apply listen_tidy; exact (issue_tidy w Ht).
Qed.

Lemma rpc_tidy method params env w : tidy w → tidy (_rpc method params env w).2.
Proof.
  intros Ht. destruct (write_url (self w)) as [url|] eqn:Hu.
  - rewrite (rpc_connected _ _ _ _ _ Hu). simpl.
    pose proof (at_post_tidy method params env w Ht) as H2.
    destruct (reply env) as [st text|x]; [|done].
    destruct (400 <=? st)%Z; [done|]. simpl.
    pose proof (listen_tidy (in_wait env) _ H2) as H3.
    destruct (event_set _); simpl.
    + by destruct (response _).
    + apply (pop_tidy (JStr (uuid4 (drawn w)))). by apply listen_tidy.
  - by rewrite rpc_disconnected.
Qed.

(** X15 (the holders in the table).  In a new client, and after any
    sequence of dispatched events, issued calls, expired waits and
    complete calls, every holder the table leads to is one that exists,
    is not signalled, has no response, and belongs to that one id.  So a
    holder in the table stays as it is when an event is dispatched that
    does not carry its id. *)
Theorem pending_holders_invariant w :
  tidy w →
  wf w
  ∧ (∀ a, tidy (act a w))
  ∧ (∀ evs, tidy (listen evs w))
  ∧ (∀ method params env, tidy (_rpc method params env w).2)
  ∧ (∀ tr b k t, tidy (run tr (MCPClient_init b k t)))
  ∧ (∀ rid ref e, _pending (self w) !! rid = Some ref →
                  correlates rid e = false →
                  heap (_handle_sse_event (name e) (data e) w).2 !! ref
                  = Some (Holder false None)).
Proof.
  intros Ht. split_and!.
  - by apply tidy_wf.
  - intros. by apply act_tidy.
  - intros. by apply listen_tidy.
  - intros. by apply rpc_tidy.
  - intros. apply (run_invariant tidy); [apply act_tidy|apply init_tidy].
  - intros rid ref e Hp Hc. destruct (Ht rid ref Hp) as [Hh Huniq].
    dispatch_cases (name e) (data e) w; try done.
    match goal with
    | Hj : json_loads _ = inr (JObj ?d), Hid : PyVal.get "id" ?d = Some (JStr ?r),
      Hq : _pending (self w) !! ?r = Some ?n |- _ =>
        assert (r ≠ rid) as Hne
          by (intros ->; rewrite (correlates_intro rid e d Hj Hid) in Hc; done);
        assert (n ≠ ref) as Hnr by (intros ->; by apply Hne, Huniq)
    end.
    by rewrite list_lookup_insert_ne.
Qed.

(** ** The two announcements of the endpoint *)

(** X16 (the two announcements agree).  On a client that knows no
    endpoint, an event of another name whose data is a JSON object with a
    non-empty string under [endpoint] does what an [endpoint] event with
    that string as its data does.  An [endpoint] event takes its data as
    the endpoint verbatim, also when the data is such a JSON object. *)
Theorem discovery_paths_agree w event text d s :
  write_url (self w) = None →
  event ≠ Some "endpoint" →
  json_loads text = inr (JObj d) →
  PyVal.get "endpoint" d = Some (JStr s) →
  s ≠ EmptyString → text ≠ EmptyString →
  _handle_sse_event event text w = _handle_sse_event (Some "endpoint") s w
  ∧ _handle_sse_event (Some "endpoint") text w
    = match _qualify_endpoint (self w) (JStr text) with
      | inr u => (inr tt, set_write_url u w)
      | inl x => (inl x, w)
      end.
Proof.
  intros Hu Hev Hj He Hs Ht. unfold _handle_sse_event. unfold_monad.
  rewrite Hu, Hj, He.
  rewrite (bool_decide_eq_false_2 (event = Some "endpoint")) by done.
  rewrite (bool_decide_eq_true_2 (Some "endpoint" = Some "endpoint")) by done.
  rewrite (bool_decide_eq_true_2 (None = None)) by done.
  destruct s; [done|]. destruct text; [done|]. simpl. split.
  - by destruct (_qualify_endpoint _ _).
  - by destruct (_qualify_endpoint _ _).
Qed.

End MoreProperties.

(** * The further properties on sample data *)

Definition event_line : read := Read false (Some "event: endpoint").
Definition data_line : read := Read false (Some "data: /messages?sessionId=42").
Definition blank_line : read := Read false (Some EmptyString).
Definition comment_line : read := Read false (Some ": keep-alive").
Definition stopped_line : read := Read true (Some "data: late").

Definition second_response : sse_event :=
  Sse None (JsonLite.text "{'id': 'rid-1', 'result': {}}").

Definition repeated_response : sse_event :=
  Sse None (JsonLite.text "{'id': 'rid-0', 'result': {'tools': []}}").

Definition text_block : json := JObj [("type", JStr "text"); ("text", JStr "hi")].

Section MoreExamples.
Local Existing Instance lite.

Lemma unknown_lines_ignored_witness :
  _listen_loop [event_line; comment_line; data_line; blank_line] None [] disconnected
  = _listen_loop [event_line; data_line; blank_line] None [] disconnected.
Proof.
  apply (unknown_lines_ignored [event_line] comment_line [data_line; blank_line]
           None [] disconnected).
  reflexivity.
Defined.

Lemma blank_line_resets_witness :
  _listen_loop ([event_line; data_line] ++ blank_line :: [data_line; blank_line])
    None [] disconnected
  = (exec _listen_loop ([event_line; data_line] ++ [blank_line]) None [];
     _listen_loop [data_line; blank_line] None []) disconnected.
Proof.
  apply (blank_line_resets [event_line; data_line] blank_line [data_line; blank_line]
           None [] disconnected).
  - repeat constructor.
  - reflexivity.
Defined.

Lemma unterminated_event_dropped_witness :
  _listen_loop [event_line; data_line] None [] disconnected = (inr tt, disconnected).
Proof.
  apply (unterminated_event_dropped [event_line; data_line] None [] disconnected).
  repeat constructor.
Defined.

Lemma stop_flag_ends_loop_witness :
  _listen_loop ([event_line] ++ stopped_line :: [data_line; blank_line])
    None [] disconnected
  = _listen_loop [event_line] None [] disconnected.
Proof.
  apply (stop_flag_ends_loop [event_line] stopped_line [data_line; blank_line]
           None [] disconnected).
  reflexivity.
Defined.

Lemma data_lines_joined_witness :
  _listen_loop (data_line :: [data_line] ++ [blank_line]) (Some "message") [] disconnected
  = _handle_sse_event (Some "message")
      (PyStr.join PyStrip.newline (map data_payload [data_line; data_line]))
      disconnected.
Proof.
  apply (data_lines_joined data_line [data_line] blank_line (Some "message")
           disconnected).
  - repeat constructor.
  - reflexivity.
Defined.

Lemma concurrent_calls_witness :
  heap (run ([Issue; Issue] ++ [Dispatch second_response; Dispatch tools_response])
          connected) !! length (heap connected)
  = Some (Holder true (Some tools_envelope))
  ∧ heap (run ([Issue; Issue] ++ [Dispatch second_response; Dispatch tools_response])
            connected) !! S (length (heap connected))
    = Some (Holder true (Some (JObj [("id", JStr "rid-1"); ("result", JObj [])])))
  ∧ _pending (self (run ([Issue; Issue]
                         ++ [Dispatch second_response; Dispatch tools_response])
                      connected)) !! uuid4 (drawn connected) = None
  ∧ _pending (self (run ([Issue; Issue]
                         ++ [Dispatch second_response; Dispatch tools_response])
                      connected)) !! uuid4 (S (drawn connected)) = None.
Proof.
  apply (concurrent_calls connected "https://host/messages?sessionId=42"
           tools_response second_response
           [("jsonrpc", JStr "2.0"); ("id", JStr "rid-0");
            ("result", JObj [("tools", JArr [JObj [("name", JStr "search")]])])]
           [("id", JStr "rid-1"); ("result", JObj [])]
           [Dispatch second_response; Dispatch tools_response]).
  - exact connected_write_url.
  - exact connected_wf.
  - vm_compute. discriminate.
  - reflexivity.
  - reflexivity.
  - reflexivity.
  - reflexivity.
  - right. reflexivity.
Defined.

Lemma duplicate_response_dropped_witness :
  heap (run [Issue; Dispatch tools_response] connected) !! length (heap connected)
  = Some (Holder true (Some tools_envelope))
  ∧ run [Issue; Dispatch tools_response; Dispatch repeated_response] connected
    = run [Issue; Dispatch tools_response] connected.
Proof.
  apply (duplicate_response_dropped connected "https://host/messages?sessionId=42"
           tools_response repeated_response
           [("jsonrpc", JStr "2.0"); ("id", JStr "rid-0");
            ("result", JObj [("tools", JArr [JObj [("name", JStr "search")]])])]).
  - exact connected_write_url.
  - exact connected_wf.
  - reflexivity.
  - reflexivity.
  - reflexivity.
Defined.

Lemma unhashable_id_kills_listener_witness :
  (_handle_sse_event None (JsonLite.text "{'id': [1]}") calling
   = (inl TypeError, calling)
   ∧ listen [Sse None (JsonLite.text "{'id': [1]}"); tools_response] calling
     = calling)
  ∧ (_handle_sse_event None (JsonLite.text "{'id': [1]}") connected
     = (inr tt, connected)
     ∧ listen [Sse None (JsonLite.text "{'id': [1]}"); tools_response] connected
       = listen [tools_response] connected).
Proof.
  assert (json_loads (JsonLite.text "{'id': [1]}") = inr (JObj [("id", JArr [JInt 1])]))
    as Hj by reflexivity.
  split.
  - destruct (unhashable_id_kills_listener calling
                "https://host/messages?sessionId=42"
                None (JsonLite.text "{'id': [1]}") [("id", JArr [JInt 1])]
                (JArr [JInt 1]) [tools_response] eq_refl Hj eq_refl I)
      as [Hfull _].
    apply Hfull. intros Hempty.
    apply (f_equal (λ m, m !! "rid-0")) in Hempty.
    vm_compute in Hempty. discriminate Hempty.
  - destruct (unhashable_id_kills_listener connected
                "https://host/messages?sessionId=42"
                None (JsonLite.text "{'id': [1]}") [("id", JArr [JInt 1])]
                (JArr [JInt 1]) [tools_response] eq_refl Hj eq_refl I)
      as [_ Hempty].
    apply Hempty. reflexivity.
Defined.


Lemma stream_url_tail_ignored_witness :
  _qualify_endpoint (self disconnected) (JStr "/messages?sessionId=42")
  = _qualify_endpoint (Client "https://host/sse" None 30 None ∅)
      (JStr "/messages?sessionId=42").
Proof.
  destruct (stream_url_tail_ignored (self disconnected)
              (Client "https://host/sse" None 30 None ∅)
              "https://host" "?code=ABC" EmptyString
              eq_refl eq_refl eq_refl eq_refl) as (Hsame & _).
  exact (Hsame (JStr "/messages?sessionId=42")).
Defined.

Lemma wrappers_extract_witness :
  (list_tools (accepted [tools_response]) connected).1
  = inr (JArr [JObj [("name", JStr "search")]])
  ∧ (call_tool "search" (JObj []) (accepted [tools_response]) connected).1
    = inr (JArr []).
Proof.
  destruct (wrappers_extract (accepted [tools_response]) connected
              "https://host/messages?sessionId=42" 202 EmptyString tools_response
              [("jsonrpc", JStr "2.0"); ("id", JStr "rid-0");
               ("result", JObj [("tools", JArr [JObj [("name", JStr "search")]])])]
              connected_write_url connected_wf eq_refl eq_refl
              tools_response_answers eq_refl eq_refl eq_refl)
    as (Htools & Hcall & _).
  split; [exact Htools|exact (Hcall "search" (JObj []))].
Defined.

Lemma first_json_block_wins_witness :
  scan_content
    (JArr ([text_block]
           ++ JObj [("type", JStr "json"); ("data", JInt 7)] :: [JStr "x"]))
  = inr (JInt 7)
  ∧ scan_content (JArr [text_block]) = inr (JArr [text_block])
  ∧ scan_content (JArr ([text_block] ++ JStr "x" :: [])) = inl AttributeError.
Proof.
  destruct (first_json_block_wins [text_block]) as (Hfirst & Hnone & Hbad).
  - repeat constructor.
  - split_and!.
    + exact (Hfirst [("type", JStr "json"); ("data", JInt 7)] [JStr "x"] eq_refl).
    + exact Hnone.
    + exact (Hbad (JStr "x") [] I).
Defined.

Lemma connect_bounded_witness :
  connect 20 100 ([Poll [] 101] ++ Poll [] 121 :: [Poll [endpoint_event] 122]) []
    disconnected
  = connect 20 100 ([Poll [] 101] ++ [Poll [] 121]) [] disconnected.
Proof.
  assert (20 ≤ now (Poll [] 121) - 100)%Z as Hlate by (simpl; lia).
  destruct (connect_bounded 20 100 [Poll [] 101] (Poll [] 121)
              [Poll [endpoint_event] 122] [] disconnected Hlate) as (Hcut & _).
  exact Hcut.
Defined.

Lemma connected_tidy : tidy connected.
Proof. exact (listen_tidy [endpoint_event] disconnected (init_tidy _ _ _)). Qed.

Lemma pending_holders_invariant_witness :
  wf connected ∧ tidy (act Issue connected).
Proof.
  destruct (pending_holders_invariant connected connected_tidy) as (Hwf & Hact & _).
  split; [exact Hwf|exact (Hact Issue)].
Defined.

Lemma discovery_paths_agree_witness :
  _handle_sse_event None (JsonLite.text "{'endpoint': '/messages?sessionId=42'}")
    disconnected
  = _handle_sse_event (Some "endpoint") "/messages?sessionId=42" disconnected.
Proof.
  apply (discovery_paths_agree disconnected None
           (JsonLite.text "{'endpoint': '/messages?sessionId=42'}")
           [("endpoint", JStr "/messages?sessionId=42")] "/messages?sessionId=42").
  - reflexivity.
  - discriminate.
  - reflexivity.
  - reflexivity.
  - discriminate.
  - vm_compute. discriminate.
Defined.

End MoreExamples.
